(** * web-scrobbler: the scrobble manager, the auth-notification counter
      and the duration parser

    A shallow embedding of

    - [background/scrobbler/scrobble-manager.ts]: the arrays
      [registeredScrobblers] and [boundScrobblers] and the operations of
      [ScrobbleManager];
    - [background/extension.ts]: the auth-notification display counter;
    - [content/util.ts], [Util.stringToSeconds], as its test table and
      the specification describe it.

    Scrobbler objects live in a heap: a scrobbler is a reference, and its
    class (ID, label, capability flags, the outcome of each of its
    asynchronous methods) is looked up through the reference.  Two
    references may carry the same ID; [Array.prototype.indexOf] compares
    references while [isScrobblerInArray] compares IDs. *)

From Stdlib Require Import String Ascii List ZArith Bool Lia PeanoNat.
Import ListNotations.
Local Open Scope string_scope.
Local Open Scope list_scope.
Local Open Scope Z_scope.

(* ================================================================== *)
(** ** JavaScript values that the manager handles                      *)
(* ================================================================== *)

Module Api.

(** Modelled from the spec: the class [ApiCallResult] of
    [background/scrobbler/api-call-result] is imported by the manager
    but is not part of the sources at hand.  The specification describes
    it as a discriminated outcome, success or one of the error kinds
    auth and other, optionally carrying the ID of the scrobbler that
    produced it; the manager uses the constants [ERROR_AUTH],
    [ERROR_OTHER] and the method [is]. *)
Inductive ResultType : Type :=
| RESULT_OK
| ERROR_AUTH
| ERROR_OTHER.

Definition ResultType_eqb (a b : ResultType) : bool :=
  match a, b with
  | RESULT_OK, RESULT_OK => true
  | ERROR_AUTH, ERROR_AUTH => true
  | ERROR_OTHER, ERROR_OTHER => true
  | _, _ => false
  end.

Record ApiCallResult : Type := mkResult {
  resultType : ResultType;
  scrobblerId : option string
}.

(** [result.is(resultType)] *)
Definition is_ (result : ApiCallResult) (t : ResultType) : bool :=
  ResultType_eqb (resultType result) t.

(** What a [catch] clause or a [.catch] handler can receive: an
    [ApiCallResult] used as a rejection value, or an ordinary [Error]
    object (name and message). *)
Inductive Thrown : Type :=
| ThrownResult (result : ApiCallResult)
| ThrownError (name message : string).

(** A settled promise. *)
Inductive Settled (A : Type) : Type :=
| Fulfilled (value : A)
| Rejected (reason : Thrown).
Arguments Fulfilled {A} value.
Arguments Rejected {A} reason.

Definition isFulfilled {A} (p : Settled A) : bool :=
  match p with Fulfilled _ => true | Rejected _ => false end.

Definition isRejected {A} (p : Settled A) : bool :=
  negb (isFulfilled p).

(** [Promise.all] over promises that have all settled: the array of
    the values, in order, when every promise is fulfilled, and
    otherwise a rejection with the reason of a rejected promise (the
    first one in the order in which they settled, here the array
    order). *)
Fixpoint Promise_all {A} (ps : list (Settled A)) : Settled (list A) :=
  match ps with
  | [] => Fulfilled []
  | Fulfilled v :: rest =>
      match Promise_all rest with
      | Fulfilled vs => Fulfilled (v :: vs)
      | Rejected e => Rejected e
      end
  | Rejected e :: _ => Rejected e
  end.

Inductive LoveStatus : Type := Loved | Unloved.

End Api.

(* ================================================================== *)
(** ** The scrobbler capability contract                               *)
(* ================================================================== *)

Module Backend.
Import Api.

(** A scrobbler object is a reference into the heap of objects. *)
Definition Ref : Type := nat.

(** The members of [BaseScrobbler] that the manager calls.  The
    concrete classes (Last.fm, Libre.fm, ListenBrainz) are outside the
    sources; every method that returns a promise is given by the
    settled state of that promise. *)
Record BaseScrobbler (SongInfo ScrobblerSongInfo : Type) : Type := {
  getId : string;
  getLabel : string;
  canLoadSongInfo : bool;
  canLoveSong : bool;
  getSession : Settled unit;
  isReadyForGrantAccess : Settled bool;
  getSongInfo : SongInfo -> Settled ScrobblerSongInfo;
  sendNowPlaying : SongInfo -> Settled ApiCallResult;
  scrobble : SongInfo -> Settled ApiCallResult;
  toggleLove : SongInfo -> LoveStatus -> Settled ApiCallResult
}.
Arguments getId {SongInfo ScrobblerSongInfo} _.
Arguments getLabel {SongInfo ScrobblerSongInfo} _.
Arguments canLoadSongInfo {SongInfo ScrobblerSongInfo} _.
Arguments canLoveSong {SongInfo ScrobblerSongInfo} _.
Arguments getSession {SongInfo ScrobblerSongInfo} _.
Arguments isReadyForGrantAccess {SongInfo ScrobblerSongInfo} _.
Arguments getSongInfo {SongInfo ScrobblerSongInfo} _ _.
Arguments sendNowPlaying {SongInfo ScrobblerSongInfo} _ _.
Arguments scrobble {SongInfo ScrobblerSongInfo} _ _.
Arguments toggleLove {SongInfo ScrobblerSongInfo} _ _ _.

(** The methods of a scrobbler, to record which of them were called. *)
Inductive Method : Type :=
| MGetSession
| MIsReadyForGrantAccess
| MGetSongInfo
| MSendNowPlaying
| MScrobble
| MToggleLove.

Definition Method_eqb (a b : Method) : bool :=
  match a, b with
  | MGetSession, MGetSession => true
  | MIsReadyForGrantAccess, MIsReadyForGrantAccess => true
  | MGetSongInfo, MGetSongInfo => true
  | MSendNowPlaying, MSendNowPlaying => true
  | MScrobble, MScrobble => true
  | MToggleLove, MToggleLove => true
  | _, _ => false
  end.

Definition Call : Type := (Ref * Method)%type.

(** The receivers of the calls of method [m] in a call log. *)
Definition receivers (m : Method) (log : list Call) : list Ref :=
  map fst (filter (fun c => Method_eqb (snd c) m) log).

End Backend.

(* ================================================================== *)
(** ** Arrays                                                          *)
(* ================================================================== *)

Module JsArray.
Import Backend.

(** [array.indexOf(x)] on an array of objects: the first index holding
    the same reference, or -1. *)
Fixpoint indexOf_from (x : Ref) (array : list Ref) (i : Z) : Z :=
  match array with
  | [] => -1
  | y :: rest => if Nat.eqb y x then i else indexOf_from x rest (i + 1)
  end.

Definition indexOf (x : Ref) (array : list Ref) : Z :=
  indexOf_from x array 0.

(** [array.splice(start, deleteCount)], the array left behind: a
    negative [start] counts from the end, and both numbers are clamped
    to the array. *)
Definition splice {A} (start deleteCount : Z) (array : list A) : list A :=
  let len := Z.of_nat (List.length array) in
  let actualStart :=
    if start <? 0 then Z.max (len + start) 0 else Z.min start len in
  let actualDeleteCount :=
    Z.min (Z.max deleteCount 0) (len - actualStart) in
  firstn (Z.to_nat actualStart) array
    ++ skipn (Z.to_nat (actualStart + actualDeleteCount)) array.

End JsArray.

(* ================================================================== *)
(** ** ScrobbleManager                                                 *)
(* ================================================================== *)

Module Manager.
Import Api Backend JsArray.

(** The mutable state around the manager: the module-level array
    [boundScrobblers], and the log of the scrobbler methods called so
    far ([console] output is not kept). *)
Record State : Type := mkState {
  boundScrobblers : list Ref;
  invoked : list Call
}.

(** A promise-returning computation, run to the point where its promise
    has settled. *)
Definition Async (A : Type) : Type := State -> State * Settled A.

Definition ret {A} (a : A) : Async A := fun st => (st, Fulfilled a).

Definition throw {A} (e : Thrown) : Async A := fun st => (st, Rejected e).

Definition bind {A B} (m : Async A) (k : A -> Async B) : Async B :=
  fun st =>
    match m st with
    | (st', Fulfilled a) => k a st'
    | (st', Rejected e) => (st', Rejected e)
    end.

Notation "x <- m ;; k" := (bind m (fun x => k))
  (at level 61, m at next level, right associativity).
Notation "m ;;; k" := (bind m (fun _ => k))
  (at level 61, right associativity).

(** [promise.catch(handler)] *)
Definition catch {A} (p : Settled A) (handler : Thrown -> Async A)
  : Async A :=
  match p with
  | Fulfilled a => ret a
  | Rejected e => handler e
  end.

(** The reactions attached to an array of promises run one after the
    other, in the order of the array; each one leaves a settled
    promise, whether or not an earlier one was rejected. *)
Fixpoint settle {A} (reactions : list (Async A)) (st : State)
  : State * list (Settled A) :=
  match reactions with
  | [] => (st, [])
  | r :: rest =>
      let '(st1, p) := r st in
      let '(st2, ps) := settle rest st1 in
      (st2, p :: ps)
  end.

Definition logCalls (calls : list Call) (st : State) : State :=
  mkState (boundScrobblers st) (invoked st ++ calls).

Definition setBound (bound : list Ref) (st : State) : State :=
  mkState bound (invoked st).

(** [await scrobbler.method(...)]: the call is recorded and the
    computation goes on with the way its promise settles. *)
Definition await {A} (s : Ref) (m : Method) (p : Settled A) : Async A :=
  fun st => (logCalls [(s, m)] st, p).

Definition modify (f : State -> State) : Async unit :=
  fun st => (f st, Fulfilled tt).

Definition TypeError (message : string) : Thrown :=
  ThrownError "TypeError" message.

Section WithBackends.
Variables SongInfo ScrobblerSongInfo : Type.

(** The heap: the object behind each reference. *)
Variable heap : Ref -> BaseScrobbler SongInfo ScrobblerSongInfo.

(** [registeredScrobblers]: in the source an array of three objects
    built once, one per backend class. *)
Variable registeredScrobblers : list Ref.

Definition isScrobblerInArray (scrobbler : Ref) (array : list Ref)
  : bool :=
  existsb
    (fun s => String.eqb (getId (heap s)) (getId (heap scrobbler)))
    array.

(** [bindScrobbler] and [unbindScrobbler] on the array itself. *)
Definition bindArray (scrobbler : Ref) (bound : list Ref) : list Ref :=
  if negb (isScrobblerInArray scrobbler bound)
  then bound ++ [scrobbler]
  else bound.

Definition unbindArray (scrobbler : Ref) (bound : list Ref)
  : list Ref :=
  if isScrobblerInArray scrobbler bound
  then
    let index := indexOf scrobbler bound in
    splice index 1 bound
  else bound.

Definition bindScrobbler (scrobbler : Ref) (st : State) : State :=
  setBound (bindArray scrobbler (boundScrobblers st)) st.

Definition unbindScrobbler (scrobbler : Ref) (st : State) : State :=
  setBound (unbindArray scrobbler (boundScrobblers st)) st.

(** One turn of the loop of [bindAllScrobblers]. *)
Definition bindOne (scrobbler : Ref) (st : State) : State :=
  let st1 := logCalls [(scrobbler, MGetSession)] st in
  match getSession (heap scrobbler) with
  | Fulfilled _ => bindScrobbler scrobbler st1
  | Rejected _ => st1
  end.

Definition bindAllScrobblers : Async (list Ref) :=
  fun st =>
    let st' :=
      fold_left (fun acc s => bindOne s acc) registeredScrobblers st in
    (st', Fulfilled (boundScrobblers st')).

Definition getScrobblerById (scrobblerId : string) : option Ref :=
  find (fun s => String.eqb (getId (heap s)) scrobblerId)
    registeredScrobblers.

(** [processErrorResult]; the scrobbler is [None] for [null]. *)
Definition processErrorResult (scrobbler : option Ref)
  (result : Thrown) : Async ApiCallResult :=
  match result with
  | ThrownError _ _ => throw (TypeError "result.is is not a function")
  | ThrownResult r =>
      let isOtherError := is_ r ERROR_OTHER in
      let isAuthError := is_ r ERROR_AUTH in
      if negb (isOtherError || isAuthError)
      then throw (ThrownError "Error" "Invalid result")
      else if isAuthError
      then
        match scrobbler with
        | None =>
            throw (TypeError "Cannot read properties of null")
        | Some s =>
            isReady <- await s MIsReadyForGrantAccess
                         (isReadyForGrantAccess (heap s)) ;;
            (if negb isReady
             then modify (unbindScrobbler s)
             else ret tt) ;;;
            ret r
        end
      else ret r
  end.

(** [getSongInfo] *)
Definition getSongInfo (songInfo : SongInfo)
  : Async (list (option ScrobblerSongInfo)) :=
  fun st =>
    let scrobblers :=
      filter (fun s => canLoadSongInfo (heap s)) registeredScrobblers in
    let st1 := logCalls (map (fun s => (s, MGetSongInfo)) scrobblers) st in
    let reactions :=
      map (fun s =>
             catch
               (match Backend.getSongInfo (heap s) songInfo with
                | Fulfilled info => Fulfilled (Some info)
                | Rejected e => Rejected e
                end)
               (fun _ => ret None))
          scrobblers in
    let '(st2, settled) := settle reactions st1 in
    (st2, Promise_all settled).

(** [sendNowPlaying]: [map] issues every call before any [catch]
    handler runs. *)
Definition sendNowPlaying (songInfo : SongInfo)
  : Async (list ApiCallResult) :=
  fun st =>
    let scrobblers := boundScrobblers st in
    let st1 :=
      logCalls (map (fun s => (s, MSendNowPlaying)) scrobblers) st in
    let reactions :=
      map (fun s =>
             catch (Backend.sendNowPlaying (heap s) songInfo)
                   (fun result => processErrorResult (Some s) result))
          scrobblers in
    let '(st2, settled) := settle reactions st1 in
    (st2, Promise_all settled).

(** The expression [scrobbler.scrobble(songInfo)] inside the [try]
    block: on [null] the property access throws, otherwise the call
    returns a promise. *)
Definition callScrobble (scrobbler : option Ref) (songInfo : SongInfo)
  : Thrown + Settled ApiCallResult :=
  match scrobbler with
  | None => inl (TypeError "Cannot read properties of null")
  | Some s => inr (Backend.scrobble (heap s) songInfo)
  end.

(** The callback of [sendScrobbleRequest], an [async] arrow function:
    [try { return scrobbler.scrobble(songInfo); } catch (result) ...].
    The promise is returned without [await], so the [catch] clause
    sees what the call throws, not how the promise settles. *)
Definition scrobbleSlot (songInfo : SongInfo) (scrobbler : option Ref)
  : Async ApiCallResult :=
  match callScrobble scrobbler songInfo with
  | inl result => processErrorResult scrobbler result
  | inr promise => fun st => (st, promise)
  end.

Definition scrobbleCalls (scrobblers : list (option Ref)) : list Call :=
  flat_map
    (fun o => match o with
              | Some s => [(s, MScrobble)]
              | None => []
              end)
    scrobblers.

Definition sendScrobbleRequest (scrobblers : list (option Ref))
  (songInfo : SongInfo) : Async (list ApiCallResult) :=
  fun st =>
    let st1 := logCalls (scrobbleCalls scrobblers) st in
    let '(st2, settled) :=
      settle (map (scrobbleSlot songInfo) scrobblers) st1 in
    (st2, Promise_all settled).

Definition scrobble (songInfo : SongInfo) : Async (list ApiCallResult) :=
  fun st => sendScrobbleRequest (map Some (boundScrobblers st)) songInfo st.

Definition scrobbleWithScrobblers (songInfo : SongInfo)
  (scrobblerIds : list string) : Async (list ApiCallResult) :=
  let scrobblers := map getScrobblerById scrobblerIds in
  sendScrobbleRequest scrobblers songInfo.

Definition toggleLove (songInfo : SongInfo) (loveStatus : LoveStatus)
  : Async (list ApiCallResult) :=
  fun st =>
    let scrobblers :=
      filter (fun s => canLoveSong (heap s)) registeredScrobblers in
    let st1 := logCalls (map (fun s => (s, MToggleLove)) scrobblers) st in
    let reactions :=
      map (fun s =>
             catch (Backend.toggleLove (heap s) songInfo loveStatus)
                   (fun result => processErrorResult (Some s) result))
          scrobblers in
    let '(st2, settled) := settle reactions st1 in
    (st2, Promise_all settled).

Definition getRegisteredScrobblers : list Ref := registeredScrobblers.

Definition getBoundScrobblers (st : State) : list Ref :=
  boundScrobblers st.

End WithBackends.

Arguments isScrobblerInArray {SongInfo ScrobblerSongInfo} heap _ _.
Arguments bindArray {SongInfo ScrobblerSongInfo} heap _ _.
Arguments unbindArray {SongInfo ScrobblerSongInfo} heap _ _.
Arguments bindScrobbler {SongInfo ScrobblerSongInfo} heap _ _.
Arguments unbindScrobbler {SongInfo ScrobblerSongInfo} heap _ _.
Arguments bindOne {SongInfo ScrobblerSongInfo} heap _ _.
Arguments bindAllScrobblers {SongInfo ScrobblerSongInfo} heap _ _.
Arguments getScrobblerById {SongInfo ScrobblerSongInfo} heap _ _.
Arguments processErrorResult {SongInfo ScrobblerSongInfo} heap _ _ _.
Arguments getSongInfo {SongInfo ScrobblerSongInfo} heap _ _ _.
Arguments sendNowPlaying {SongInfo ScrobblerSongInfo} heap _ _.
Arguments callScrobble {SongInfo ScrobblerSongInfo} heap _ _.
Arguments scrobbleSlot {SongInfo ScrobblerSongInfo} heap _ _ _.
Arguments sendScrobbleRequest {SongInfo ScrobblerSongInfo} heap _ _ _.
Arguments scrobble {SongInfo ScrobblerSongInfo} heap _ _.
Arguments scrobbleWithScrobblers {SongInfo ScrobblerSongInfo} heap _ _ _ _.
Arguments toggleLove {SongInfo ScrobblerSongInfo} heap _ _ _ _.

(** The array holds at most one scrobbler for each ID: what
    [bindScrobbler] maintains. *)
Definition uniqueIds {SongInfo ScrobblerSongInfo}
  (heap : Ref -> BaseScrobbler SongInfo ScrobblerSongInfo)
  (array : list Ref) : Prop :=
  NoDup (map (fun s => getId (heap s)) array).

(** No other object in the array has the ID of [scrobbler]. *)
Definition soleOwnerOfId {SongInfo ScrobblerSongInfo}
  (heap : Ref -> BaseScrobbler SongInfo ScrobblerSongInfo)
  (scrobbler : Ref) (array : list Ref) : Prop :=
  forall s, In s array -> getId (heap s) = getId (heap scrobbler) ->
            s = scrobbler.

(** The array without the first occurrence of a reference. *)
Fixpoint removeFirst (x : Ref) (array : list Ref) : list Ref :=
  match array with
  | [] => []
  | y :: rest => if Nat.eqb y x then rest else y :: removeFirst x rest
  end.

(** The calls that change the bound array, and a series of them. *)
Inductive BindingCall : Type :=
| Bind (scrobbler : Ref)
| Unbind (scrobbler : Ref).

Definition applyBinding {SongInfo ScrobblerSongInfo}
  (heap : Ref -> BaseScrobbler SongInfo ScrobblerSongInfo)
  (bound : list Ref) (call : BindingCall) : list Ref :=
  match call with
  | Bind s => bindArray heap s bound
  | Unbind s => unbindArray heap s bound
  end.

Definition applyBindings {SongInfo ScrobblerSongInfo}
  (heap : Ref -> BaseScrobbler SongInfo ScrobblerSongInfo)
  (calls : list BindingCall) (bound : list Ref) : list Ref :=
  fold_left (applyBinding heap) calls bound.

(** The two classified kinds of error, on whatever was thrown. *)
Definition isAuthError (result : Thrown) : bool :=
  match result with
  | ThrownResult r => is_ r ERROR_AUTH
  | ThrownError _ _ => false
  end.

Definition isOtherError (result : Thrown) : bool :=
  match result with
  | ThrownResult r => is_ r ERROR_OTHER
  | ThrownError _ _ => false
  end.

Definition isClassifiedError (result : Thrown) : bool :=
  isOtherError result || isAuthError result.

(** A result that reports a classified error. *)
Definition isErrorResult (r : ApiCallResult) : bool :=
  is_ r ERROR_OTHER || is_ r ERROR_AUTH.

(** The calls issued between two states of one run. *)
Definition newCalls (before after : State) : list Call :=
  skipn (List.length (invoked before)) (invoked after).

(** Calls of [isReadyForGrantAccess] only. *)
Definition onlyReadyChecks (calls : list Call) : Prop :=
  Forall (fun c => snd c = MIsReadyForGrantAccess) calls.

(** The scrobblers among the entries of an array that may hold [null]. *)
Definition nonNull (scrobblers : list (option Ref)) : list Ref :=
  flat_map
    (fun o => match o with
              | Some s => [s]
              | None => []
              end)
    scrobblers.

(** How one slot of [sendNowPlaying] or [toggleLove] relates the promise
    of the scrobbler to the entry of the aggregate: the value of a
    fulfilled promise, or the classified error a rejected one carried. *)
Definition slotEntry (promise : Settled ApiCallResult)
  (entry : ApiCallResult) : Prop :=
  match promise with
  | Fulfilled r => entry = r
  | Rejected e => e = ThrownResult entry /\ isErrorResult entry = true
  end.

(** A scrobbler keeps to the contract of the manager when a rejection
    carries a classified error and the question whether it is ready for
    grant access gets an answer. *)
Definition keepsContract {SongInfo ScrobblerSongInfo}
  (heap : Ref -> BaseScrobbler SongInfo ScrobblerSongInfo)
  (promise : Settled ApiCallResult) (s : Ref) : Prop :=
  match promise with
  | Fulfilled _ => True
  | Rejected e =>
      isClassifiedError e = true
      /\ isFulfilled (isReadyForGrantAccess (heap s)) = true
  end.

End Manager.

(* ================================================================== *)
(** ** A concrete heap                                                 *)
(* ================================================================== *)

Module Sample.
Import Api Backend.

Definition ok (id : string) : ApiCallResult := mkResult RESULT_OK (Some id).
Definition authError (id : string) : ApiCallResult :=
  mkResult ERROR_AUTH (Some id).
Definition otherError (id : string) : ApiCallResult :=
  mkResult ERROR_OTHER (Some id).

(** A backend whose session is valid and whose calls succeed. *)
Definition healthy (id label : string) (info love : bool)
  : BaseScrobbler unit string :=
  {| getId := id;
     getLabel := label;
     canLoadSongInfo := info;
     canLoveSong := love;
     getSession := Fulfilled tt;
     isReadyForGrantAccess := Fulfilled false;
     getSongInfo := fun _ => Fulfilled label;
     sendNowPlaying := fun _ => Fulfilled (ok id);
     scrobble := fun _ => Fulfilled (ok id);
     toggleLove := fun _ _ => Fulfilled (ok id) |}.

(** A backend whose session was revoked: every call is rejected with an
    auth error, and no sign-in is under way. *)
Definition revoked (id label : string) (info love : bool)
  : BaseScrobbler unit string :=
  {| getId := id;
     getLabel := label;
     canLoadSongInfo := info;
     canLoveSong := love;
     getSession := Rejected (ThrownResult (authError id));
     isReadyForGrantAccess := Fulfilled false;
     getSongInfo := fun _ => Rejected (ThrownResult (authError id));
     sendNowPlaying := fun _ => Rejected (ThrownResult (authError id));
     scrobble := fun _ => Rejected (ThrownResult (authError id));
     toggleLove := fun _ _ => Rejected (ThrownResult (authError id)) |}.

(** Objects 0, 1 and 2 are the three registered scrobblers; every other
    reference is one more instance of the Last.fm class. *)
Definition heap (r : Ref) : BaseScrobbler unit string :=
  match r with
  | 1%nat => revoked "librefm" "Libre.fm" true true
  | 2%nat => healthy "listenbrainz" "ListenBrainz" false false
  | _ => healthy "lastfm" "Last.fm" true true
  end.

Definition registeredScrobblers : list Ref := [0; 1; 2]%nat.

Definition allBound : Manager.State := Manager.mkState [0; 1; 2]%nat [].

Definition noneBound : Manager.State := Manager.mkState [] [].

End Sample.

(* ================================================================== *)
(** ** Extension: the auth notification                                *)
(* ================================================================== *)

Module Ext.

(** How many times to show auth notification. *)
Definition authNotificationDisplayCount : Z := 3.

(** [interface AuthNotificationsStorage]; the property is absent until
    the first write. *)
Record AuthNotificationsStorage : Type := mkAuthStorage {
  authDisplayCount : option Z
}.

(** What the user gets to see: the notification, or the accounts page
    opened in a tab where notifications are not supported. *)
Inductive Display : Type :=
| AuthNotification
| AccountsTab.

(** Modelled from the spec: [StorageWrapper] is outside the sources; the
    specification treats persistent storage as an external key/value
    namespace, so [get] yields the object last stored with [set], and
    the object survives from one run of the extension to the next. *)
Record State : Type := mkState {
  notificationStorage : AuthNotificationsStorage;
  displayed : list Display
}.

(** [value || 0] on a number that may be absent: [undefined] and [0] are
    falsy. *)
Definition orZero (value : option Z) : Z :=
  match value with
  | Some n => if n =? 0 then 0 else n
  | None => 0
  end.

Definition isAuthNotificationAllowed (st : State) : bool :=
  let data := notificationStorage st in
  let authDisplayCount := orZero (authDisplayCount data) in
  authDisplayCount <? authNotificationDisplayCount.

Definition updateAuthDisplayCount (st : State) : State :=
  let data := notificationStorage st in
  let authDisplayCount := orZero (authDisplayCount data) in
  mkState (mkAuthStorage (Some (authDisplayCount + 1))) (displayed st).

(** [showAuthNotification]; [notificationsSupported] tells whether the
    call into the notifications module succeeds or throws, in which case
    the [catch] clause opens the accounts page instead. *)
Definition showAuthNotification (notificationsSupported : bool)
  (st : State) : State :=
  if isAuthNotificationAllowed st
  then
    let shown :=
      if notificationsSupported then AuthNotification else AccountsTab in
    updateAuthDisplayCount
      (mkState (notificationStorage st) (displayed st ++ [shown]))
  else st.

(** The calls of [showAuthNotification] over the life of the extension,
    one for each start that finds no scrobbler bound. *)
Definition lifetime (calls : list bool) (st : State) : State :=
  fold_left (fun acc supported => showAuthNotification supported acc)
    calls st.

(** A fresh installation: nothing stored, nothing shown. *)
Definition fresh : State := mkState (mkAuthStorage None) [].

End Ext.

(* ================================================================== *)
(** ** Util.stringToSeconds                                            *)
(* ================================================================== *)

Module Util.

Definition isWhitespace (c : ascii) : bool :=
  let n := nat_of_ascii c in
  ((n =? 32) || (n =? 9) || (n =? 10) || (n =? 11) || (n =? 12)
   || (n =? 13))%nat.

Fixpoint trimStart (s : list ascii) : list ascii :=
  match s with
  | c :: rest => if isWhitespace c then trimStart rest else s
  | [] => []
  end.

Definition trim (s : list ascii) : list ascii :=
  rev (trimStart (rev (trimStart s))).

Definition digitValue (c : ascii) : option Z :=
  let n := nat_of_ascii c in
  if ((48 <=? n) && (n <=? 57))%nat
  then Some (Z.of_nat n - 48)
  else None.

(** The value of a run of decimal digits coming after the digits already
    read, whose value is [acc]. *)
Fixpoint digitsFrom (acc : Z) (s : list ascii) : option Z :=
  match s with
  | [] => Some acc
  | c :: rest =>
      match digitValue c with
      | Some d => digitsFrom (acc * 10 + d) rest
      | None => None
      end
  end.

Definition parseField (s : list ascii) : option Z :=
  match s with
  | [] => None
  | _ => digitsFrom 0 s
  end.

(** The fields between colons; [cur] holds the field being read, in
    reverse. *)
Fixpoint splitColon (cur : list ascii) (s : list ascii)
  : list (list ascii) :=
  match s with
  | [] => [rev cur]
  | c :: rest =>
      if Ascii.eqb c ":"%char
      then rev cur :: splitColon [] rest
      else splitColon (c :: cur) rest
  end.

Fixpoint parseFields (fields : list (list ascii)) : option (list Z) :=
  match fields with
  | [] => Some []
  | f :: rest =>
      match parseField f, parseFields rest with
      | Some v, Some vs => Some (v :: vs)
      | _, _ => None
      end
  end.

(** Modelled from the spec: [Util.stringToSeconds] of [content/util] is
    outside the sources; only its test table is at hand.  After
    trimming whitespace the text is an optional leading minus sign and
    one, two or three colon-separated numbers, read as seconds, as
    minutes and seconds, or as hours, minutes and seconds; a missing,
    empty or unparseable text gives 0. *)
Definition stringToSeconds (str : option string) : Z :=
  match str with
  | None => 0
  | Some text =>
      let trimmed := trim (list_ascii_of_string text) in
      let '(negative, body) :=
        match trimmed with
        | c :: rest =>
            if Ascii.eqb c "-"%char then (true, rest) else (false, trimmed)
        | [] => (false, trimmed)
        end in
      let fields := splitColon [] body in
      if (List.length fields <=? 3)%nat
      then
        match parseFields fields with
        | Some numbers =>
            let seconds := fold_left (fun acc v => acc * 60 + v) numbers 0 in
            if negative then - seconds else seconds
        | None => 0
        end
      else 0
  end.

(** The words of the parsing law: whitespace, a number written in
    decimal digits and its value, the optional minus sign, and fields
    joined by colons. *)
Definition isDigit (c : ascii) : bool :=
  match digitValue c with
  | Some _ => true
  | None => false
  end.

Definition blank (s : list ascii) : Prop :=
  forallb isWhitespace s = true.

Definition numeral (s : list ascii) : Prop :=
  s <> [] /\ forallb isDigit s = true.

Definition decimal (s : list ascii) : Z :=
  fold_left (fun acc c => acc * 10 + (Z.of_nat (nat_of_ascii c) - 48)) s 0.

Definition sign (negative : bool) : list ascii :=
  if negative then ["-"%char] else [].

Definition signed (negative : bool) (seconds : Z) : Z :=
  if negative then - seconds else seconds.

Fixpoint joinColon (fields : list (list ascii)) : list ascii :=
  match fields with
  | [] => []
  | [f] => f
  | f :: rest => f ++ ":"%char :: joinColon rest
  end.

Definition text (s : list ascii) : option string :=
  Some (string_of_list_ascii s).

End Util.

(* ================================================================== *)
(** ** Objects as ordered property tables                              *)
(* ================================================================== *)

Module JsObject.

(** A plain object: its own properties in insertion order. *)
Definition Obj (V : Type) : Type := list (string * V).

(** [object[key]], [None] for [undefined]. *)
Fixpoint lookup {V} (key : string) (object : Obj V) : option V :=
  match object with
  | [] => None
  | (k, v) :: rest => if String.eqb k key then Some v else lookup key rest
  end.

(** [object[key] = value]: an existing property keeps its place, a new
    one goes to the end. *)
Fixpoint setProperty {V} (key : string) (value : V) (object : Obj V)
  : Obj V :=
  match object with
  | [] => [(key, value)]
  | (k, v) :: rest =>
      if String.eqb k key
      then (k, value) :: rest
      else (k, v) :: setProperty key value rest
  end.

(** [delete object[key]] *)
Fixpoint deleteProperty {V} (key : string) (object : Obj V) : Obj V :=
  match object with
  | [] => []
  | (k, v) :: rest =>
      if String.eqb k key
      then deleteProperty key rest
      else (k, v) :: deleteProperty key rest
  end.

(** [Object.assign(target, source)]: the properties of the source are
    set on the target one after the other. *)
Definition Object_assign {V} (target source : Obj V) : Obj V :=
  fold_left (fun acc kv => setProperty (fst kv) (snd kv) acc) source target.

(** An object has each of its keys once. *)
Definition wellFormed {V} (object : Obj V) : Prop :=
  NoDup (map fst object).

End JsObject.

(* ================================================================== *)
(** ** tests/stubs/storage-area.js                                     *)
(* ================================================================== *)

Module StorageAreaStub.
Import JsObject.

Section WithValues.
Variable V : Type.

(** The stub holds one object, [this.data], empty at construction. *)
Definition StorageAreaStub : Type := Obj V.

Definition constructor : StorageAreaStub := [].

Definition get (this : StorageAreaStub) : Obj V := this.

Definition set (data : Obj V) (this : StorageAreaStub) : StorageAreaStub :=
  Object_assign this data.

Definition remove (key : string) (this : StorageAreaStub)
  : StorageAreaStub :=
  deleteProperty key this.

End WithValues.

Arguments get {V} this.
Arguments set {V} data this.
Arguments remove {V} key this.

End StorageAreaStub.

(* ================================================================== *)
(** ** background/storage/browser-storage.ts                           *)
(* ================================================================== *)

Module BrowserStorage.

Inductive StorageType : Type := LOCAL | SYNC.

Definition CONNECTORS_OPTIONS : string := "Connectors".
Definition CUSTOM_PATTERNS : string := "customPatterns".
Definition NOTIFICATIONS : string := "Notifications".
Definition LOCAL_CACHE : string := "LocalCache".
Definition OPTIONS : string := "Options".
Definition CORE : string := "Core".
Definition SCROBBLE_STORAGE : string := "ScrobbleStorage".

Definition storageTypeMap : JsObject.Obj StorageType :=
  [ (CONNECTORS_OPTIONS, SYNC);
    (CUSTOM_PATTERNS, SYNC);
    (NOTIFICATIONS, SYNC);
    (OPTIONS, SYNC);
    (SCROBBLE_STORAGE, LOCAL);
    (LOCAL_CACHE, LOCAL);
    (CORE, LOCAL) ].

(** The two areas of [browser.storage]. *)
Inductive StorageArea : Type := LocalArea | SyncArea.

(** What [new StorageWrapper(storageArea, namespace)] is built from; the
    class itself is outside the sources. *)
Record StorageWrapper : Type := mkWrapper {
  storageArea : StorageArea;
  namespace : string
}.

Definition getLocalStorage (namespace : string) : StorageWrapper :=
  let storageArea := LocalArea in
  mkWrapper storageArea namespace.

(** [browser.storage.sync || browser.storage.local]; [syncAvailable]
    tells whether the browser has [browser.storage.sync]. *)
Definition getSyncStorage (syncAvailable : bool) (namespace : string)
  : StorageWrapper :=
  let storageArea := if syncAvailable then SyncArea else LocalArea in
  mkWrapper storageArea namespace.

(** [getStorage]: the wrapper, or the message of the [Error] thrown.  A
    key the table does not have gives [undefined], and so does not
    match either case of the [switch]. *)
Definition getStorage (syncAvailable : bool) (namespace : string)
  : string + StorageWrapper :=
  let storageType := JsObject.lookup namespace storageTypeMap in
  match storageType with
  | Some SYNC => inr (getSyncStorage syncAvailable namespace)
  | Some LOCAL => inr (getLocalStorage namespace)
  | None => inl ("Unknown storage namespace: " ++ namespace)%string
  end.

Definition getScrobblerStorage (namespace : string) : StorageWrapper :=
  getLocalStorage namespace.

End BrowserStorage.

(* ================================================================== *)
(** ** The pipeline stage that loads the edits of the user             *)
(* ================================================================== *)

Module UserInput.
Import JsObject.

Record Flags : Type := mkFlags {
  isCorrectedByUser : bool
}.

(** [SongDiff]: both properties are optional. *)
Record SongDiff : Type := mkDiff {
  processed : option (Obj (option string));
  flags : option Flags
}.

(** The loop [for (const field of Song.BASE_FIELDS)
    processed[field] = editedSongInfo[field]]. *)
Definition copyFields (fields : list string)
  (editedSongInfo : Obj string) : Obj (option string) :=
  fold_left
    (fun processed field =>
       setProperty field (lookup field editedSongInfo) processed)
    fields [].

(** [loadEditedSongInfo]; [BASE_FIELDS] stands for [Song.BASE_FIELDS]
    and [loaded] for what [SavedEdits.loadSongInfo(song)] resolves to,
    both outside the sources. *)
Definition loadEditedSongInfo (BASE_FIELDS : list string)
  (loaded : option (Obj string)) : SongDiff :=
  match loaded with
  | None => mkDiff None None
  | Some editedSongInfo =>
      mkDiff (Some (copyFields BASE_FIELDS editedSongInfo))
             (Some (mkFlags true))
  end.

End UserInput.

(* ================================================================== *)
(** ** Extension: start-up and messages                                *)
(* ================================================================== *)

Module Background.
Import Api Backend.

(** The values of [Request] that [processMessage] looks at; every other
    message type is an [OtherRequest]. *)
Inductive Request : Type :=
| GetActiveTabId
| SignIn
| SignOut
| ApplyUserProperties
| OtherRequest (name : string).

(** The members of [BaseScrobbler] that only the extension calls. *)
Record ScrobblerAccount (UserProperties : Type) : Type := {
  getAuthUrl : Settled string;
  signOut : Settled unit;
  applyUserProperties : UserProperties -> Settled unit;
  getStatusUrl : option string
}.
Arguments getAuthUrl {UserProperties} _.
Arguments signOut {UserProperties} _.
Arguments applyUserProperties {UserProperties} _ _.
Arguments getStatusUrl {UserProperties} _.

(** The [data] of a message, read as [ScrobblerRequestResponse] and as
    [UserPropertiesResponse]. *)
Record MessageData (UserProperties : Type) : Type := mkData {
  scrobblerId : option string;
  userProps : UserProperties
}.
Arguments mkData {UserProperties} _ _.
Arguments scrobblerId {UserProperties} _.
Arguments userProps {UserProperties} _.

(** What the extension does to the world outside the manager. *)
Inductive Effect : Type :=
| TabWorkerProcessMessage (tabId : Z) (type : Request)
| TabWorkerGetActiveTabId
| CallGetAuthUrl (scrobbler : Ref)
| CallSignOut (scrobbler : Ref)
| CallApplyUserProperties (scrobbler : Ref)
| CreateTab (url : string)
| ShowSignInError (scrobbler : Ref).

(** What [processMessage] resolves to. *)
Inductive Reply : Type :=
| ReplyOfTabWorker
| ReplyActiveTabId
| ReplyUndefined.

(** [interface CoreStorage] *)
Record CoreStorage : Type := mkCore {
  appVersion : option string
}.

Record World : Type := mkWorld {
  manager : Manager.State;
  notifications : Ext.State;
  core : CoreStorage;
  effects : list Effect
}.

Definition withManager (f : Manager.State -> Manager.State) (w : World)
  : World :=
  mkWorld (f (manager w)) (notifications w) (core w) (effects w).

Definition addEffect (e : Effect) (w : World) : World :=
  mkWorld (manager w) (notifications w) (core w) (effects w ++ [e]).

(** [if (tabId)]: [undefined] and 0 are falsy. *)
Definition truthy (tabId : option Z) : bool :=
  match tabId with
  | Some n => negb (n =? 0)
  | None => false
  end.

Section WithBackends.
Variables SongInfo ScrobblerSongInfo UserProperties : Type.
Variable heap : Ref -> BaseScrobbler SongInfo ScrobblerSongInfo.
Variable accounts : Ref -> ScrobblerAccount UserProperties.
Variable registeredScrobblers : list Ref.

(** [browser.runtime.getManifest().version] *)
Variable extVersion : string.

(** [TabWorker] is outside the sources.  What
    [this.tabWorker.processMessage(tabId, type, data)] and
    [this.tabWorker.getActiveTabId()] do to the world and resolve to is
    not known here, so both are parameters. *)
Variable tabWorkerProcessMessage :
  Z -> Request -> option (MessageData UserProperties) -> World ->
  World * Settled Reply.
Variable tabWorkerGetActiveTabId : World -> World * Settled Reply.

Definition updateVersionInStorage (w : World) : World :=
  mkWorld (manager w) (notifications w) (mkCore (Some extVersion))
    (effects w).

Definition bindScrobblers (w : World) : World * Settled bool :=
  match Manager.bindAllScrobblers heap registeredScrobblers (manager w) with
  | (m, Fulfilled boundScrobblers) =>
      (withManager (fun _ => m) w,
       Fulfilled (0 <? List.length boundScrobblers)%nat)
  | (m, Rejected e) => (withManager (fun _ => m) w, Rejected e)
  end.

(** [start]; [notificationsSupported] as in [Ext.showAuthNotification]. *)
Definition start (notificationsSupported : bool) (w : World)
  : World * Settled unit :=
  let w1 := updateVersionInStorage w in
  match bindScrobblers w1 with
  | (w2, Fulfilled anyBound) =>
      if negb anyBound
      then
        (mkWorld (manager w2)
           (Ext.showAuthNotification notificationsSupported
              (notifications w2))
           (core w2) (effects w2),
         Fulfilled tt)
      else (w2, Fulfilled tt)
  | (w2, Rejected e) => (w2, Rejected e)
  end.

(** [authenticateScrobbler]: everything thrown in the [try] block is
    caught. *)
Definition authenticateScrobbler (scrobbler : Ref) (w : World) : World :=
  let w1 := addEffect (CallGetAuthUrl scrobbler) w in
  match getAuthUrl (accounts scrobbler) with
  | Fulfilled authUrl =>
      addEffect (CreateTab authUrl)
        (withManager (Manager.bindScrobbler heap scrobbler) w1)
  | Rejected _ => addEffect (ShowSignInError scrobbler) w1
  end.

Definition applyProperties (scrobbler : Ref) (props : UserProperties)
  (w : World) : World * Settled unit :=
  let w1 := addEffect (CallApplyUserProperties scrobbler) w in
  match applyUserProperties (accounts scrobbler) props with
  | Fulfilled _ =>
      (withManager (Manager.bindScrobbler heap scrobbler) w1, Fulfilled tt)
  | Rejected e => (w1, Rejected e)
  end.

(** [processMessage]; [data] is [None] when the message carries none,
    and destructuring it then throws. *)
Definition processMessage (tabId : option Z) (type : Request)
  (data : option (MessageData UserProperties)) (w : World)
  : World * Settled Reply :=
  if truthy tabId
  then
    tabWorkerProcessMessage
      (match tabId with Some n => n | None => 0 end) type data w
  else
    match type with
    | GetActiveTabId => tabWorkerGetActiveTabId w
    | _ =>
        match data with
        | None =>
            (w, Rejected
                  (Manager.TypeError
                     "Cannot destructure property 'scrobblerId' of 'data'"))
        | Some d =>
            let scrobbler :=
              match scrobblerId d with
              | Some id =>
                  Manager.getScrobblerById heap registeredScrobblers id
              | None => None
              end in
            match scrobbler with
            | None => (w, Fulfilled ReplyUndefined)
            | Some s =>
                match type with
                | SignIn =>
                    (authenticateScrobbler s w, Fulfilled ReplyUndefined)
                | SignOut =>
                    let w1 := addEffect (CallSignOut s) w in
                    match signOut (accounts s) with
                    | Fulfilled _ => (w1, Fulfilled ReplyUndefined)
                    | Rejected e => (w1, Rejected e)
                    end
                | ApplyUserProperties =>
                    match applyProperties s (userProps d) w with
                    | (w1, Fulfilled _) => (w1, Fulfilled ReplyUndefined)
                    | (w1, Rejected e) => (w1, Rejected e)
                    end
                | _ => (w, Fulfilled ReplyUndefined)
                end
            end
        end
    end.

(** One run of the extension: the module of the manager is loaded anew,
    so the bound array is empty, while the storage is the one the last
    run left. *)
Definition run (notificationsSupported : bool) (w : World) : World :=
  fst (start notificationsSupported
         (withManager (fun _ => Manager.mkState [] []) w)).

Definition runs (calls : list bool) (w : World) : World :=
  fold_left (fun acc supported => run supported acc) calls w.

End WithBackends.

Arguments bindScrobblers {SongInfo ScrobblerSongInfo} heap _ w.
Arguments start {SongInfo ScrobblerSongInfo} heap _ extVersion _ w.
Arguments run {SongInfo ScrobblerSongInfo} heap _ extVersion _ w.
Arguments runs {SongInfo ScrobblerSongInfo} heap _ extVersion _ w.
Arguments authenticateScrobbler {SongInfo ScrobblerSongInfo UserProperties}
  heap accounts _ w.
Arguments applyProperties {SongInfo ScrobblerSongInfo UserProperties}
  heap accounts _ _ w.
Arguments processMessage {SongInfo ScrobblerSongInfo UserProperties}
  heap accounts _ _ _ _ _ _ w.

End Background.

(* ================================================================== *)
(** ** Concrete accounts and objects                                   *)
(* ================================================================== *)

Module SampleWorld.
Import Api Backend.

(** The accounts of the objects of [Sample.heap]: Libre.fm cannot give
    an auth URL, the others can. *)
Definition accounts (r : Ref) : Background.ScrobblerAccount unit :=
  match r with
  | 1%nat =>
      {| Background.getAuthUrl :=
           Rejected (ThrownError "Error" "network");
         Background.signOut := Fulfilled tt;
         Background.applyUserProperties :=
           fun _ => Rejected (ThrownError "Error" "network");
         Background.getStatusUrl := Some "https://libre.fm/status" |}
  | _ =>
      {| Background.getAuthUrl := Fulfilled "https://auth.example/token";
         Background.signOut := Fulfilled tt;
         Background.applyUserProperties := fun _ => Fulfilled tt;
         Background.getStatusUrl := None |}
  end.

Definition fresh : Background.World :=
  Background.mkWorld Sample.noneBound Ext.fresh (Background.mkCore None) [].

(** The heap where every session is revoked. *)
Definition allRevoked (r : Ref) : BaseScrobbler unit string :=
  match r with
  | 0%nat => Sample.revoked "lastfm" "Last.fm" true true
  | 1%nat => Sample.revoked "librefm" "Libre.fm" true true
  | _ => Sample.revoked "listenbrainz" "ListenBrainz" false false
  end.

(** A backend that cannot be reached: every call is rejected with an
    error of kind other, and the readiness question is rejected too. *)
Definition unreachable (id label : string) : BaseScrobbler unit string :=
  {| getId := id;
     getLabel := label;
     canLoadSongInfo := true;
     canLoveSong := true;
     getSession := Rejected (ThrownResult (Sample.otherError id));
     isReadyForGrantAccess := Rejected (ThrownError "Error" "offline");
     getSongInfo := fun _ => Rejected (ThrownResult (Sample.otherError id));
     sendNowPlaying :=
       fun _ => Rejected (ThrownResult (Sample.otherError id));
     scrobble := fun _ => Rejected (ThrownResult (Sample.otherError id));
     toggleLove :=
       fun _ _ => Rejected (ThrownResult (Sample.otherError id)) |}.

(** The heap of [Sample.heap] with Libre.fm out of reach. *)
Definition offline (r : Ref) : BaseScrobbler unit string :=
  match r with
  | 1%nat => unreachable "librefm" "Libre.fm"
  | _ => Sample.heap r
  end.

(** A tab worker that only records that it was called. *)
Definition tabWorker (tabId : Z) (type : Background.Request)
  (data : option (Background.MessageData unit)) (w : Background.World)
  : Background.World * Settled Background.Reply :=
  (Background.addEffect (Background.TabWorkerProcessMessage tabId type) w,
   Fulfilled Background.ReplyOfTabWorker).

Definition activeTab (w : Background.World)
  : Background.World * Settled Background.Reply :=
  (Background.addEffect Background.TabWorkerGetActiveTabId w,
   Fulfilled Background.ReplyActiveTabId).

Definition signInRequest (id : string) : Background.MessageData unit :=
  Background.mkData (Some id) tt.

Definition savedEdit : JsObject.Obj string :=
  [("artist", "Artist"); ("track", "Track"); ("comment", "mine")].

End SampleWorld.

(* ================================================================== *)
(** ** Facts about arrays                                              *)
(* ================================================================== *)

Module JsArrayFacts.
Import Backend JsArray Manager.

Lemma splice_inside {A} (n : nat) (array : list A) :
  (n < List.length array)%nat ->
  splice (Z.of_nat n) 1 array = firstn n array ++ skipn (S n) array.
Proof.
  intros Hn. unfold splice.
  destruct (Z.ltb_spec (Z.of_nat n) 0) as [Hneg | _]; [lia |].
  rewrite Z.min_l by lia.
  replace (Z.max 1 0) with 1 by reflexivity.
  rewrite Z.min_l by lia.
  rewrite Nat2Z.id.
  replace (Z.to_nat (Z.of_nat n + 1)) with (S n) by lia.
  reflexivity.
Qed.

Lemma firstn_pred_removelast {A} (array : list A) :
  firstn (Nat.pred (List.length array)) array = removelast array.
Proof.
  induction array as [| a [| b rest] IH]; try reflexivity.
  change (a :: firstn (Nat.pred (List.length (b :: rest))) (b :: rest)
          = a :: removelast (b :: rest)).
  now rewrite IH.
Qed.

(** [splice(-1, 1)] drops the last element. *)
Lemma splice_minus_one {A} (array : list A) :
  splice (-1) 1 array = removelast array.
Proof.
  unfold splice. cbv zeta.
  replace (-1 <? 0) with true by reflexivity.
  replace (Z.max 1 0) with 1 by reflexivity.
  destruct array as [| a rest]; [reflexivity |].
  set (l := a :: rest).
  assert (Hlen : (0 < List.length l)%nat) by (subst l; simpl; lia).
  rewrite Z.max_l by lia.
  rewrite Z.min_l by lia.
  replace (Z.to_nat (Z.of_nat (List.length l) + -1))
    with (Nat.pred (List.length l)) by lia.
  replace (Z.to_nat (Z.of_nat (List.length l) + -1 + 1))
    with (List.length l) by lia.
  rewrite skipn_all, app_nil_r.
  apply firstn_pred_removelast.
Qed.

Lemma indexOf_from_missing (x : Ref) (array : list Ref) (i : Z) :
  ~ In x array -> indexOf_from x array i = -1.
Proof.
  revert i. induction array as [| y rest IH]; intros i Hnot; simpl.
  - reflexivity.
  - destruct (Nat.eqb_spec y x) as [-> | Hne].
    + exfalso. apply Hnot. now left.
    + apply IH. intros Hin. apply Hnot. now right.
Qed.

Lemma indexOf_from_found (x : Ref) (array : list Ref) (i : Z) :
  In x array ->
  exists n : nat,
    indexOf_from x array i = i + Z.of_nat n
    /\ (n < List.length array)%nat
    /\ firstn n array ++ skipn (S n) array = removeFirst x array.
Proof.
  revert i. induction array as [| y rest IH]; intros i Hin.
  - destruct Hin.
  - simpl. destruct (Nat.eqb_spec y x) as [-> | Hne].
    + exists 0%nat. repeat split; simpl; lia.
    + destruct Hin as [Heq | Hin]; [congruence |].
      destruct (IH (i + 1) Hin) as (n & Hidx & Hlt & Hrm).
      exists (S n). repeat split.
      * rewrite Hidx. lia.
      * simpl. lia.
      * simpl. now rewrite <- Hrm.
Qed.

(** What [indexOf] followed by [splice] does: the first occurrence of the
    reference goes, and when the reference does not occur the index is
    -1 and the last element goes. *)
Lemma splice_indexOf_found (x : Ref) (array : list Ref) :
  In x array -> splice (indexOf x array) 1 array = removeFirst x array.
Proof.
  intros Hin. unfold indexOf.
  destruct (indexOf_from_found x array 0 Hin) as (n & Hidx & Hlt & Hrm).
  rewrite Hidx, Z.add_0_l, splice_inside by exact Hlt. exact Hrm.
Qed.

Lemma splice_indexOf_missing (x : Ref) (array : list Ref) :
  ~ In x array -> splice (indexOf x array) 1 array = removelast array.
Proof.
  intros Hnot. unfold indexOf.
  rewrite indexOf_from_missing by exact Hnot. apply splice_minus_one.
Qed.

Lemma removeFirst_other (x y : Ref) (array : list Ref) :
  y <> x -> (In y (removeFirst x array) <-> In y array).
Proof.
  intros Hne. induction array as [| z rest IH]; simpl; [tauto |].
  destruct (Nat.eqb_spec z x) as [-> | Hzx]; simpl.
  - split; [tauto | intros [H | H]; [congruence | exact H]].
  - rewrite IH. tauto.
Qed.

Lemma removeFirst_append_fresh (x : Ref) (array : list Ref) :
  ~ In x array -> removeFirst x (array ++ [x]) = array.
Proof.
  induction array as [| y rest IH]; intros Hnot; simpl.
  - now rewrite Nat.eqb_refl.
  - destruct (Nat.eqb_spec y x) as [-> | Hne].
    + exfalso. apply Hnot. now left.
    + f_equal. apply IH. intros Hin. apply Hnot. now right.
Qed.

Lemma removeFirst_subset (x y : Ref) (array : list Ref) :
  In y (removeFirst x array) -> In y array.
Proof.
  induction array as [| z rest IH]; simpl; [tauto |].
  destruct (Nat.eqb_spec z x); simpl; intuition.
Qed.

Lemma removeFirst_gone (x : Ref) (array : list Ref) :
  NoDup array -> ~ In x (removeFirst x array).
Proof.
  induction array as [| z rest IH]; intros Hnd; simpl; [tauto |].
  inversion Hnd as [| ? ? Hfresh Hrest]; subst.
  destruct (Nat.eqb_spec z x) as [-> | Hne]; [exact Hfresh |].
  simpl. intros [Heq | Hin]; [congruence | now apply IH].
Qed.

Lemma removelast_subset {A} (y : A) (array : list A) :
  In y (removelast array) -> In y array.
Proof.
  induction array as [| z [| w rest] IH]; simpl; [tauto | tauto |].
  intros [Heq | Hin]; [now left | right; now apply IH].
Qed.

Lemma removelast_NoDup {A} (array : list A) :
  NoDup array -> NoDup (removelast array).
Proof.
  induction array as [| z [| w rest] IH]; intros Hnd; simpl;
    [constructor | constructor |].
  inversion Hnd as [| ? ? Hfresh Hrest]; subst. constructor.
  - intros Hin. apply Hfresh. now apply removelast_subset.
  - now apply IH.
Qed.

Lemma removelast_map {A B} (f : A -> B) (array : list A) :
  map f (removelast array) = removelast (map f array).
Proof.
  induction array as [| z [| w rest] IH]; simpl; try reflexivity.
  f_equal. exact IH.
Qed.

Lemma removeFirst_map_NoDup {B} (f : Ref -> B) (x : Ref)
  (array : list Ref) :
  NoDup (map f array) -> NoDup (map f (removeFirst x array)).
Proof.
  induction array as [| z rest IH]; intros Hnd; simpl; [constructor |].
  inversion Hnd as [| ? ? Hfresh Hrest]; subst.
  destruct (Nat.eqb_spec z x); [exact Hrest |].
  simpl. constructor; [| now apply IH].
  intros Hin. apply Hfresh.
  apply in_map_iff in Hin as (y & Hy & Hin).
  apply in_map_iff. exists y. split; [exact Hy |].
  now apply removeFirst_subset in Hin.
Qed.

End JsArrayFacts.

(* ================================================================== *)
(** ** Facts about the bound array                                     *)
(* ================================================================== *)

Module BoundFacts.
Import Api Backend JsArray Manager JsArrayFacts.

Section WithBackends.
Variables SongInfo ScrobblerSongInfo : Type.
Variable heap : Ref -> BaseScrobbler SongInfo ScrobblerSongInfo.

Lemma inArray_iff (s : Ref) (array : list Ref) :
  isScrobblerInArray heap s array = true
  <-> exists x, In x array /\ getId (heap x) = getId (heap s).
Proof.
  unfold isScrobblerInArray. rewrite existsb_exists.
  split; intros (x & Hin & Hid); exists x; split; auto;
    now apply String.eqb_eq.
Qed.

Lemma inArray_self (s : Ref) (array : list Ref) :
  In s array -> isScrobblerInArray heap s array = true.
Proof. intros Hin. apply inArray_iff. now exists s. Qed.

Lemma inArray_false_iff (s : Ref) (array : list Ref) :
  isScrobblerInArray heap s array = false
  <-> ~ In (getId (heap s)) (map (fun x => getId (heap x)) array).
Proof.
  rewrite <- not_true_iff_false, inArray_iff, in_map_iff.
  split; intros Hnot (x & H1 & H2); apply Hnot; exists x; tauto.
Qed.

Lemma inArray_pushed (s : Ref) (array : list Ref) :
  isScrobblerInArray heap s (array ++ [s]) = true.
Proof. apply inArray_self, in_or_app. right. now left. Qed.

Lemma bindArray_bound (s : Ref) (bound : list Ref) :
  isScrobblerInArray heap s (bindArray heap s bound) = true.
Proof.
  unfold bindArray.
  destruct (isScrobblerInArray heap s bound) eqn:E; simpl;
    [exact E | apply inArray_pushed].
Qed.

(** Binding twice is binding once. *)
Lemma bindArray_idempotent (s : Ref) (bound : list Ref) :
  bindArray heap s (bindArray heap s bound) = bindArray heap s bound.
Proof.
  unfold bindArray at 1. now rewrite bindArray_bound.
Qed.

(** Unbinding a scrobbler whose ID is not bound changes nothing. *)
Lemma unbindArray_not_bound (s : Ref) (bound : list Ref) :
  isScrobblerInArray heap s bound = false ->
  unbindArray heap s bound = bound.
Proof. intros E. unfold unbindArray. now rewrite E. Qed.

(** The two ways [unbindScrobbler] removes an element. *)
Lemma unbindArray_same_object (s : Ref) (bound : list Ref) :
  In s bound -> unbindArray heap s bound = removeFirst s bound.
Proof.
  intros Hin. unfold unbindArray.
  rewrite inArray_self by exact Hin. now apply splice_indexOf_found.
Qed.

Lemma unbindArray_other_object (s : Ref) (bound : list Ref) :
  isScrobblerInArray heap s bound = true -> ~ In s bound ->
  unbindArray heap s bound = removelast bound.
Proof.
  intros E Hnot. unfold unbindArray. rewrite E.
  now apply splice_indexOf_missing.
Qed.

Lemma bound_by_id_is_bound (s : Ref) (bound : list Ref) :
  soleOwnerOfId heap s bound ->
  isScrobblerInArray heap s bound = true -> In s bound.
Proof.
  intros Hsole E. apply inArray_iff in E as (x & Hin & Hid).
  now rewrite <- (Hsole x Hin Hid).
Qed.

Lemma removeFirst_unbinds (s : Ref) (bound : list Ref) :
  uniqueIds heap bound -> soleOwnerOfId heap s bound ->
  isScrobblerInArray heap s (removeFirst s bound) = false.
Proof.
  unfold uniqueIds.
  induction bound as [| y rest IH]; intros Huniq Hsole; simpl.
  - reflexivity.
  - inversion Huniq as [| ? ? Hfresh Hrest]; subst.
    destruct (Nat.eqb_spec y s) as [-> | Hne].
    + now apply inArray_false_iff.
    + simpl. rewrite IH; auto.
      * rewrite orb_false_r. apply String.eqb_neq. intros Hid.
        apply Hne, Hsole; [now left | exact Hid].
      * intros x Hin. apply Hsole. now right.
Qed.

(** With one object per ID, unbinding leaves the ID unbound and touches
    no other scrobbler. *)
Lemma unbindArray_unbinds (s : Ref) (bound : list Ref) :
  uniqueIds heap bound -> soleOwnerOfId heap s bound ->
  isScrobblerInArray heap s (unbindArray heap s bound) = false.
Proof.
  intros Huniq Hsole.
  destruct (isScrobblerInArray heap s bound) eqn:E.
  - rewrite unbindArray_same_object
      by (apply bound_by_id_is_bound; assumption).
    now apply removeFirst_unbinds.
  - now rewrite unbindArray_not_bound.
Qed.

Lemma unbindArray_others (s x : Ref) (bound : list Ref) :
  soleOwnerOfId heap s bound -> x <> s ->
  (In x (unbindArray heap s bound) <-> In x bound).
Proof.
  intros Hsole Hne.
  destruct (isScrobblerInArray heap s bound) eqn:E.
  - rewrite unbindArray_same_object
      by (apply bound_by_id_is_bound; assumption).
    now apply removeFirst_other.
  - now rewrite unbindArray_not_bound.
Qed.

Lemma uniqueIds_NoDup (bound : list Ref) :
  uniqueIds heap bound -> NoDup bound.
Proof. apply NoDup_map_inv. Qed.

(** Whatever else is in the bound array, the object unbound is not in it
    afterwards. *)
Lemma unbindArray_object_gone (s : Ref) (bound : list Ref) :
  uniqueIds heap bound -> ~ In s (unbindArray heap s bound).
Proof.
  intros Huniq.
  destruct (in_dec Nat.eq_dec s bound) as [Hin | Hnot].
  - rewrite unbindArray_same_object by exact Hin.
    now apply removeFirst_gone, uniqueIds_NoDup.
  - destruct (isScrobblerInArray heap s bound) eqn:E.
    + rewrite unbindArray_other_object by assumption.
      intros Hin. apply Hnot. now apply removelast_subset.
    + now rewrite unbindArray_not_bound.
Qed.

(** [unbindScrobbler] keeps IDs unique. *)
Lemma unbindArray_uniqueIds (s : Ref) (bound : list Ref) :
  uniqueIds heap bound -> uniqueIds heap (unbindArray heap s bound).
Proof.
  intros Huniq. unfold uniqueIds in *.
  destruct (isScrobblerInArray heap s bound) eqn:E;
    [| now rewrite unbindArray_not_bound].
  destruct (in_dec Nat.eq_dec s bound) as [Hin | Hnot].
  - rewrite unbindArray_same_object by exact Hin.
    now apply removeFirst_map_NoDup.
  - rewrite unbindArray_other_object by assumption.
    rewrite removelast_map. now apply removelast_NoDup.
Qed.

(** [bindScrobbler] keeps IDs unique. *)
Lemma bindArray_uniqueIds (s : Ref) (bound : list Ref) :
  uniqueIds heap bound -> uniqueIds heap (bindArray heap s bound).
Proof.
  unfold bindArray. destruct (isScrobblerInArray heap s bound) eqn:E;
    simpl; [auto |].
  apply inArray_false_iff in E. unfold uniqueIds.
  induction bound as [| y rest IH]; intros Huniq; simpl.
  - constructor; [intros [] | constructor].
  - inversion Huniq as [| ? ? Hfresh Hrest]; subst. constructor.
    + rewrite map_app, in_app_iff. intros [Hin | [Heq | []]].
      * now apply Hfresh.
      * apply E. left. now symmetry.
    + apply IH; [| exact Hrest]. intros Hin. apply E. now right.
Qed.

(** Bind, unbind, bind again: the same array as one bind when the ID was
    not bound, the same bound IDs when the object itself was bound. *)
Lemma bind_unbind_bind_fresh (s : Ref) (bound : list Ref) :
  isScrobblerInArray heap s bound = false ->
  bindArray heap s (unbindArray heap s (bindArray heap s bound))
  = bindArray heap s bound.
Proof.
  intros E.
  assert (Hnot : ~ In s bound).
  { intros Hin. apply inArray_self in Hin. congruence. }
  unfold bindArray at 2 3. rewrite E. simpl.
  rewrite unbindArray_same_object by (apply in_or_app; right; now left).
  rewrite removeFirst_append_fresh by exact Hnot.
  unfold bindArray. now rewrite E.
Qed.

Lemma existsb_removeFirst (f : Ref -> bool) (s : Ref) (array : list Ref) :
  In s array ->
  existsb f array = f s || existsb f (removeFirst s array).
Proof.
  induction array as [| y rest IH]; intros Hin; [destruct Hin |].
  simpl. destruct (Nat.eqb_spec y s) as [-> | Hne]; [reflexivity |].
  destruct Hin as [Heq | Hin]; [congruence |].
  simpl. rewrite (IH Hin). now destruct (f y), (f s).
Qed.

Lemma bind_unbind_bind_member (s x : Ref) (bound : list Ref) :
  In s bound ->
  isScrobblerInArray heap x
    (bindArray heap s (unbindArray heap s (bindArray heap s bound)))
  = isScrobblerInArray heap x (bindArray heap s bound).
Proof.
  intros Hin.
  assert (Hb : bindArray heap s bound = bound).
  { unfold bindArray. now rewrite inArray_self. }
  rewrite Hb, unbindArray_same_object by exact Hin.
  unfold isScrobblerInArray at 2.
  rewrite (existsb_removeFirst _ s bound Hin).
  unfold bindArray.
  destruct (isScrobblerInArray heap s (removeFirst s bound)) eqn:E; simpl.
  - destruct (String.eqb_spec (getId (heap s)) (getId (heap x)))
      as [Hid | Hid]; [| reflexivity].
    simpl. apply inArray_iff.
    apply inArray_iff in E as (y & Hy & Hys).
    exists y. split; [exact Hy | congruence].
  - unfold isScrobblerInArray. rewrite existsb_app. simpl.
    rewrite orb_false_r. apply orb_comm.
Qed.

(** Where IDs are unique among the registered scrobblers and only
    registered scrobblers are bound, a registered scrobbler is the only
    object with its ID in the bound array. *)
Lemma registered_soleOwner (registered bound : list Ref) (s : Ref) :
  uniqueIds heap registered -> In s registered ->
  incl bound registered ->
  soleOwnerOfId heap s bound.
Proof.
  unfold uniqueIds. intros Huniq Hs Hincl x Hx Hid.
  apply Hincl in Hx. clear Hincl bound.
  induction registered as [| y rest IH]; [destruct Hs |].
  inversion Huniq as [| ? ? Hfresh Hrest]; subst.
  assert (Hmem : forall z, In z rest ->
            In (getId (heap z)) (map (fun r => getId (heap r)) rest))
    by (intros z Hz; exact (in_map (fun r => getId (heap r)) _ z Hz)).
  destruct Hs as [-> | Hs], Hx as [-> | Hx].
  - reflexivity.
  - exfalso. apply Hfresh. rewrite <- Hid. now apply Hmem.
  - exfalso. apply Hfresh. rewrite Hid. now apply Hmem.
  - now apply IH.
Qed.

(** The bound array starts empty and changes through [bindScrobbler]
    and [unbindScrobbler] only, so it holds one object for each ID at
    all times. *)
Lemma applyBindings_uniqueIds (calls : list BindingCall)
  (bound : list Ref) :
  uniqueIds heap bound -> uniqueIds heap (applyBindings heap calls bound).
Proof.
  revert bound. unfold applyBindings.
  induction calls as [| [s | s] rest IH]; intros bound Huniq; simpl;
    [exact Huniq | |]; apply IH.
  - now apply bindArray_uniqueIds.
  - now apply unbindArray_uniqueIds.
Qed.

Lemma reachable_uniqueIds (calls : list BindingCall) :
  uniqueIds heap (applyBindings heap calls []).
Proof. apply applyBindings_uniqueIds. constructor. Qed.

End WithBackends.

End BoundFacts.

(* ================================================================== *)
(** ** The error-result protocol                                       *)
(* ================================================================== *)

Module ErrorResultFacts.
Import Api Backend JsArray Manager BoundFacts.

Section WithBackends.
Variables SongInfo ScrobblerSongInfo : Type.
Variable heap : Ref -> BaseScrobbler SongInfo ScrobblerSongInfo.

Lemma auth_is_not_other (r : ApiCallResult) :
  is_ r ERROR_AUTH = true -> is_ r ERROR_OTHER = false.
Proof. unfold is_. now destruct (resultType r). Qed.

(** An error of kind other comes back as it is; nothing is called and
    nothing is unbound. *)
Lemma processErrorResult_other (scrobbler : option Ref)
  (r : ApiCallResult) (st : State) :
  is_ r ERROR_OTHER = true ->
  processErrorResult heap scrobbler (ThrownResult r) st = (st, Fulfilled r).
Proof.
  intros Hother. unfold processErrorResult. rewrite Hother. simpl.
  assert (Hauth : is_ r ERROR_AUTH = false).
  { unfold is_ in *. now destruct (resultType r). }
  now rewrite Hauth.
Qed.

Lemma processErrorResult_auth_run (s : Ref) (r : ApiCallResult)
  (ready : bool) (st : State) :
  is_ r ERROR_AUTH = true ->
  isReadyForGrantAccess (heap s) = Fulfilled ready ->
  processErrorResult heap (Some s) (ThrownResult r) st
  = (let st1 := logCalls [(s, MIsReadyForGrantAccess)] st in
     if ready then st1 else unbindScrobbler heap s st1,
     Fulfilled r).
Proof.
  intros Hauth Hready. unfold processErrorResult.
  rewrite Hauth, (auth_is_not_other r Hauth). simpl.
  unfold bind, await. rewrite Hready.
  now destruct ready.
Qed.

(** An auth error handed to [processErrorResult] comes back to the
    caller as a value, never as a rejection.  When the scrobbler is
    ready for grant access the bound array is left as it is, so a bound
    scrobbler remains bound.  When it is not ready the scrobbler is
    unbound: the bound array, which holds one object for each ID, does
    not contain the scrobbler afterwards; and where no other object
    carries the ID of the scrobbler, its ID is no longer bound either
    and every other scrobbler is bound exactly when it was before. *)
Theorem processErrorResult_auth_error (s : Ref) (r : ApiCallResult)
  (ready : bool) (st : State) :
  is_ r ERROR_AUTH = true ->
  isReadyForGrantAccess (heap s) = Fulfilled ready ->
  uniqueIds heap (boundScrobblers st) ->
  let st' := fst (processErrorResult heap (Some s) (ThrownResult r) st) in
  snd (processErrorResult heap (Some s) (ThrownResult r) st) = Fulfilled r
  /\ (ready = true -> boundScrobblers st' = boundScrobblers st)
  /\ (ready = false ->
      ~ In s (boundScrobblers st')
      /\ (soleOwnerOfId heap s (boundScrobblers st) ->
          isScrobblerInArray heap s (boundScrobblers st') = false
          /\ forall x, x <> s ->
               (In x (boundScrobblers st') <-> In x (boundScrobblers st)))).
Proof.
  intros Hauth Hready Huniq.
  rewrite (processErrorResult_auth_run s r ready st Hauth Hready).
  cbv zeta. split; [reflexivity |]. split.
  - intros ->. reflexivity.
  - intros ->. simpl. split.
    + now apply unbindArray_object_gone.
    + intros Hsole. split.
      * now apply unbindArray_unbinds.
      * intros x Hne. now apply unbindArray_others.
Qed.

(** C3.  A result that is neither an auth error nor an error of kind
    other makes [processErrorResult] raise: its promise is rejected, and
    the state, the bound array included, is the one it started from. *)
Theorem processErrorResult_unclassified (scrobbler : option Ref)
  (result : Thrown) (st : State) :
  isClassifiedError result = false ->
  exists e : Thrown,
    processErrorResult heap scrobbler result st = (st, Rejected e).
Proof.
  unfold isClassifiedError, isOtherError, isAuthError, processErrorResult.
  destruct result as [r | name message]; intros Hun.
  - rewrite Hun. simpl. now exists (ThrownError "Error" "Invalid result").
  - now exists (TypeError "result.is is not a function").
Qed.

End WithBackends.

End ErrorResultFacts.

(* ================================================================== *)
(** ** Promises and call logs                                          *)
(* ================================================================== *)

Module PromiseFacts.
Import Api Backend Manager.

Lemma Promise_all_fulfilled {A} (values : list A) :
  Promise_all (map Fulfilled values) = Fulfilled values.
Proof.
  induction values as [| v rest IH]; simpl; [reflexivity |].
  now rewrite IH.
Qed.

Lemma Promise_all_rejected {A} (ps : list (Settled A)) (e : Thrown) :
  In (Rejected e) ps -> exists e', Promise_all ps = Rejected e'.
Proof.
  induction ps as [| p rest IH]; intros Hin; [destruct Hin |].
  destruct p as [v | e0]; simpl.
  - destruct Hin as [Heq | Hin]; [discriminate |].
    destruct (IH Hin) as [e' ->]. now exists e'.
  - now exists e0.
Qed.

Lemma Promise_all_length {A} (ps : list (Settled A)) (values : list A) :
  Promise_all ps = Fulfilled values ->
  List.length values = List.length ps.
Proof.
  revert values. induction ps as [| p rest IH]; intros values; simpl.
  - intros [= <-]. reflexivity.
  - destruct p as [v | e]; [| discriminate].
    destruct (Promise_all rest) as [vs | e]; [| discriminate].
    intros [= <-]. simpl. now rewrite (IH vs).
Qed.

(** Reactions that leave the state alone. *)
Lemma settle_pure {A B} (g : B -> Async A) (f : B -> Settled A)
  (l : list B) (st : State) :
  (forall b, In b l -> g b st = (st, f b)) ->
  settle (map g l) st = (st, map f l).
Proof.
  induction l as [| b rest IH]; intros Hpure; simpl; [reflexivity |].
  rewrite (Hpure b) by now left.
  rewrite IH by (intros b' Hin; apply Hpure; now right).
  reflexivity.
Qed.

(** Reactions that all end in a fulfilled promise. *)
Lemma settle_fulfilled {A B} (g : B -> Async A) (R : B -> A -> Prop)
  (l : list B) :
  (forall b, In b l -> forall st,
     exists st' a, g b st = (st', Fulfilled a) /\ R b a) ->
  forall st, exists st' values,
    settle (map g l) st = (st', map Fulfilled values)
    /\ Forall2 R l values.
Proof.
  induction l as [| b rest IH]; intros Hall st; simpl.
  - exists st, []. split; [reflexivity | constructor].
  - destruct (Hall b (or_introl eq_refl) st) as (st1 & a & Hrun & HR).
    rewrite Hrun.
    destruct (IH (fun b' Hin => Hall b' (or_intror Hin)) st1)
      as (st2 & values & Hrest & HF).
    rewrite Hrest. exists st2, (a :: values).
    split; [reflexivity | now constructor].
Qed.

(** What a run of reactions adds to the call log. *)
Lemma settle_calls {A} (P : list Call -> Prop) (reactions : list (Async A)) :
  P [] ->
  (forall c1 c2, P c1 -> P c2 -> P (c1 ++ c2)) ->
  (forall r, In r reactions -> forall st,
     exists calls, invoked (fst (r st)) = invoked st ++ calls /\ P calls) ->
  forall st, exists calls,
    invoked (fst (settle reactions st)) = invoked st ++ calls /\ P calls.
Proof.
  intros Hnil Happ.
  induction reactions as [| r rest IH]; intros Hall st; simpl.
  - exists []. now rewrite app_nil_r.
  - destruct (Hall r (or_introl eq_refl) st) as (c1 & H1 & HP1).
    destruct (r st) as [st1 p] eqn:Er. simpl in H1.
    destruct (IH (fun r' Hin => Hall r' (or_intror Hin)) st1)
      as (c2 & H2 & HP2).
    destruct (settle rest st1) as [st2 ps] eqn:Es. simpl in *.
    exists (c1 ++ c2). split; [| now apply Happ].
    now rewrite H2, H1, app_assoc.
Qed.

Lemma newCalls_app (st st' : State) (calls : list Call) :
  invoked st' = invoked st ++ calls -> newCalls st st' = calls.
Proof.
  intros H. unfold newCalls. rewrite H, skipn_app, skipn_all, Nat.sub_diag.
  reflexivity.
Qed.

Lemma receivers_app (m : Method) (c1 c2 : list Call) :
  receivers m (c1 ++ c2) = receivers m c1 ++ receivers m c2.
Proof. unfold receivers. now rewrite filter_app, map_app. Qed.

Lemma receivers_same (m : Method) (l : list Ref) :
  Method_eqb m m = true ->
  receivers m (map (fun s => (s, m)) l) = l.
Proof.
  intros Hm. unfold receivers.
  induction l as [| s rest IH]; simpl; [reflexivity |].
  rewrite Hm. simpl. now rewrite IH.
Qed.

Lemma receivers_ready_checks (m : Method) (calls : list Call) :
  Method_eqb MIsReadyForGrantAccess m = false ->
  onlyReadyChecks calls -> receivers m calls = [].
Proof.
  intros Hm Hall. unfold receivers.
  induction Hall as [| c rest Hc _ IH]; simpl; [reflexivity |].
  now rewrite Hc, Hm.
Qed.

Lemma onlyReadyChecks_app (c1 c2 : list Call) :
  onlyReadyChecks c1 -> onlyReadyChecks c2 -> onlyReadyChecks (c1 ++ c2).
Proof. unfold onlyReadyChecks. intros. now apply Forall_app. Qed.

End PromiseFacts.

(* ================================================================== *)
(** ** Dispatch                                                        *)
(* ================================================================== *)

Module DispatchFacts.
Import Api Backend JsArray Manager BoundFacts PromiseFacts.

Section WithBackends.
Variables SongInfo ScrobblerSongInfo : Type.
Variable heap : Ref -> BaseScrobbler SongInfo ScrobblerSongInfo.
Variable registeredScrobblers : list Ref.

Lemma processErrorResult_calls (scrobbler : option Ref) (result : Thrown)
  (st : State) :
  exists calls,
    invoked (fst (processErrorResult heap scrobbler result st))
    = invoked st ++ calls
    /\ onlyReadyChecks calls.
Proof.
  unfold processErrorResult.
  destruct result as [r | name message];
    [| exists []; split; [simpl; now rewrite app_nil_r | constructor]].
  destruct (negb (is_ r ERROR_OTHER || is_ r ERROR_AUTH));
    [exists []; split; [simpl; now rewrite app_nil_r | constructor] |].
  destruct (is_ r ERROR_AUTH);
    [| exists []; split; [simpl; now rewrite app_nil_r | constructor]].
  destruct scrobbler as [s |];
    [| exists []; split; [simpl; now rewrite app_nil_r | constructor]].
  exists [(s, MIsReadyForGrantAccess)].
  split; [| repeat constructor].
  unfold bind, await.
  destruct (isReadyForGrantAccess (heap s)) as [[|] | e]; reflexivity.
Qed.

Lemma processErrorResult_classified (s : Ref) (e : Thrown) (st : State) :
  isClassifiedError e = true ->
  isFulfilled (isReadyForGrantAccess (heap s)) = true ->
  exists st' r,
    processErrorResult heap (Some s) e st = (st', Fulfilled r)
    /\ e = ThrownResult r /\ isErrorResult r = true.
Proof.
  intros Hclass Hready.
  destruct e as [r | name message]; [| discriminate].
  unfold isClassifiedError, isOtherError, isAuthError in Hclass.
  assert (Herr : isErrorResult r = true) by exact Hclass.
  unfold processErrorResult. rewrite Hclass. simpl.
  destruct (is_ r ERROR_AUTH) eqn:Hauth.
  - destruct (isReadyForGrantAccess (heap s)) as [ready |] eqn:Er;
      [| discriminate].
    unfold bind, await.
    destruct ready; simpl; eexists; exists r; repeat split;
      exact Herr.
  - exists st, r. repeat split. exact Herr.
Qed.

(** A slot with a [catch] handler ends in an entry when the scrobbler
    keeps to the contract. *)
Lemma caught_slot (promise : Settled ApiCallResult) (s : Ref) (st : State) :
  keepsContract heap promise s ->
  exists st' entry,
    catch promise (fun result => processErrorResult heap (Some s) result) st
    = (st', Fulfilled entry)
    /\ slotEntry promise entry.
Proof.
  destruct promise as [r | e]; simpl.
  - intros _. now exists st, r.
  - intros [Hclass Hready].
    destruct (processErrorResult_classified s e st Hclass Hready)
      as (st' & r & Hrun & He & Herr).
    exists st', r. now rewrite Hrun.
Qed.

(** [sendNowPlaying]: every bound scrobbler is called, and when they keep
    to the contract the aggregate is fulfilled with one entry for each
    of them, the successes and the classified failures alike. *)
Lemma sendNowPlaying_collects (songInfo : SongInfo) (st : State) :
  (forall s, In s (boundScrobblers st) ->
     keepsContract heap (Backend.sendNowPlaying (heap s) songInfo) s) ->
  exists st' results,
    sendNowPlaying heap songInfo st = (st', Fulfilled results)
    /\ Forall2
         (fun s entry =>
            slotEntry (Backend.sendNowPlaying (heap s) songInfo) entry)
         (boundScrobblers st) results
    /\ List.length results = List.length (boundScrobblers st).
Proof.
  intros Hcontract. unfold sendNowPlaying.
  set (st1 := logCalls _ st).
  destruct (settle_fulfilled
              (fun s => catch (Backend.sendNowPlaying (heap s) songInfo)
                          (fun result =>
                             processErrorResult heap (Some s) result))
              (fun s entry =>
                 slotEntry (Backend.sendNowPlaying (heap s) songInfo) entry)
              (boundScrobblers st)
              (fun s Hin st0 => caught_slot _ s st0 (Hcontract s Hin))
              st1)
    as (st2 & results & Hsettle & HF).
  rewrite Hsettle, Promise_all_fulfilled.
  exists st2, results. repeat split; [exact HF |].
  symmetry. exact (Forall2_length HF).
Qed.

Lemma scrobbleCalls_bound (l : list Ref) :
  scrobbleCalls (map Some l) = map (fun s => (s, MScrobble)) l.
Proof.
  unfold scrobbleCalls.
  induction l as [| s rest IH]; simpl; [reflexivity | now rewrite IH].
Qed.

Lemma scrobbleSlot_bound (songInfo : SongInfo) (s : Ref) (st : State) :
  scrobbleSlot heap songInfo (Some s) st
  = (st, Backend.scrobble (heap s) songInfo).
Proof. reflexivity. Qed.

Lemma scrobbleSlot_null (songInfo : SongInfo) (st : State) :
  scrobbleSlot heap songInfo None st
  = (st, Rejected (TypeError "result.is is not a function")).
Proof. reflexivity. Qed.

(** [scrobble]: the promises of the scrobblers go into [Promise.all] as
    they are; [processErrorResult] is not reached. *)
Lemma scrobble_forwards (songInfo : SongInfo) (st : State) :
  scrobble heap songInfo st
  = (logCalls (map (fun s => (s, MScrobble)) (boundScrobblers st)) st,
     Promise_all
       (map (fun s => Backend.scrobble (heap s) songInfo)
          (boundScrobblers st))).
Proof.
  unfold scrobble, sendScrobbleRequest.
  rewrite scrobbleCalls_bound, map_map.
  rewrite (settle_pure
             (fun s => scrobbleSlot heap songInfo (Some s))
             (fun s => Backend.scrobble (heap s) songInfo))
    by (intros; apply scrobbleSlot_bound).
  reflexivity.
Qed.

(** One bound scrobbler whose [scrobble] promise is rejected is enough
    for the aggregate of [scrobble] to be rejected, and the scrobbler
    stays bound whatever the error was. *)
Lemma scrobble_rejects (songInfo : SongInfo) (st : State) (s : Ref)
  (e : Thrown) :
  In s (boundScrobblers st) ->
  Backend.scrobble (heap s) songInfo = Rejected e ->
  exists e',
    snd (scrobble heap songInfo st) = Rejected e'
    /\ boundScrobblers (fst (scrobble heap songInfo st))
       = boundScrobblers st.
Proof.
  intros Hin Hrej. rewrite scrobble_forwards. simpl.
  destruct (Promise_all_rejected
              (map (fun s => Backend.scrobble (heap s) songInfo)
                 (boundScrobblers st)) e) as [e' He'].
  - rewrite <- Hrej.
    exact (in_map (fun x => Backend.scrobble (heap x) songInfo) _ s Hin).
  - exists e'. now rewrite He'.
Qed.

Lemma fst_aggregate {A} (x : State * list (Settled A)) :
  fst (let '(st2, settled) := x in (st2, Promise_all settled)) = fst x.
Proof. now destruct x. Qed.

Lemma caught_slot_calls (promise : Settled ApiCallResult) (s : Ref)
  (st : State) :
  exists calls,
    invoked
      (fst (catch promise
              (fun result => processErrorResult heap (Some s) result) st))
    = invoked st ++ calls
    /\ onlyReadyChecks calls.
Proof.
  destruct promise as [r | e]; simpl.
  - exists []. split; [now rewrite app_nil_r | constructor].
  - apply processErrorResult_calls.
Qed.

(** The entry of [getSongInfo] for one scrobbler. *)
Lemma getSongInfo_slot (songInfo : SongInfo) (s : Ref) (st : State) :
  catch
    (match Backend.getSongInfo (heap s) songInfo with
     | Fulfilled info => Fulfilled (Some info)
     | Rejected e => Rejected e
     end)
    (fun _ => ret None) st
  = (st,
     Fulfilled
       (match Backend.getSongInfo (heap s) songInfo with
        | Fulfilled info => Some info
        | Rejected _ => None
        end)).
Proof. now destruct (Backend.getSongInfo (heap s) songInfo). Qed.

(** C7.  [getSongInfo] calls the registered scrobblers that can load
    song info, those and no others, each once and in the order of
    registration.  Its promise is always fulfilled, with one entry for
    each of these scrobblers: in the slot of a scrobbler whose call was
    rejected the entry is null, in the slot of one whose call succeeded
    it is the info received.  The bound array is not touched. *)
Theorem getSongInfo_one_entry_per_capable (songInfo : SongInfo)
  (st : State) :
  let capable :=
    filter (fun s => canLoadSongInfo (heap s)) registeredScrobblers in
  let run := getSongInfo heap registeredScrobblers songInfo st in
  exists results : list (option ScrobblerSongInfo),
    snd run = Fulfilled results
    /\ List.length results = List.length capable
    /\ (forall i s, nth_error capable i = Some s ->
          nth_error results i
          = Some (match Backend.getSongInfo (heap s) songInfo with
                  | Fulfilled info => Some info
                  | Rejected _ => None
                  end))
    /\ receivers MGetSongInfo (newCalls st (fst run)) = capable
    /\ boundScrobblers (fst run) = boundScrobblers st.
Proof.
  intros capable run. subst run. unfold getSongInfo. fold capable.
  rewrite (settle_pure _
             (fun s => Fulfilled
                (match Backend.getSongInfo (heap s) songInfo with
                 | Fulfilled info => Some info
                 | Rejected _ => None
                 end)))
    by (intros; apply getSongInfo_slot).
  rewrite <- (map_map _ Fulfilled), Promise_all_fulfilled.
  eexists. split; [reflexivity |]. split; [apply length_map |].
  split; [| split].
  - intros i s Hi.
    exact (map_nth_error
             (fun x => match Backend.getSongInfo (heap x) songInfo with
                       | Fulfilled info => Some info
                       | Rejected _ => None
                       end) i capable Hi).
  - simpl. rewrite (newCalls_app st _ (map (fun s => (s, MGetSongInfo)) capable))
      by reflexivity.
    now apply receivers_same.
  - reflexivity.
Qed.

Lemma toggleLove_calls (songInfo : SongInfo) (loveStatus : LoveStatus)
  (st : State) :
  exists checks,
    invoked (fst (toggleLove heap registeredScrobblers songInfo loveStatus st))
    = invoked st
        ++ map (fun s => (s, MToggleLove))
             (filter (fun s => canLoveSong (heap s)) registeredScrobblers)
        ++ checks
    /\ onlyReadyChecks checks.
Proof.
  unfold toggleLove. rewrite fst_aggregate.
  set (targets := filter _ registeredScrobblers).
  set (st1 := logCalls _ st).
  destruct (settle_calls onlyReadyChecks
              (map (fun s =>
                      catch (Backend.toggleLove (heap s) songInfo loveStatus)
                        (fun result =>
                           processErrorResult heap (Some s) result))
                 targets))
    with (st := st1) as (checks & Hcalls & Honly).
  - constructor.
  - apply onlyReadyChecks_app.
  - intros r Hin st0. apply in_map_iff in Hin as (s & <- & _).
    apply caught_slot_calls.
  - exists checks. split; [| exact Honly].
    rewrite Hcalls. subst st1. simpl. now rewrite app_assoc.
Qed.

(** C8.  [toggleLove] calls the registered scrobblers that can love a
    song, those and no others, each once and in the order of
    registration.  The bound array plays no part: whatever it holds,
    the receivers of the call are the same. *)
Theorem toggleLove_targets_ignore_bound (songInfo : SongInfo)
  (loveStatus : LoveStatus) (st : State) :
  let targets st0 :=
    receivers MToggleLove
      (newCalls st0
         (fst (toggleLove heap registeredScrobblers songInfo loveStatus
                 st0))) in
  targets st
  = filter (fun s => canLoveSong (heap s)) registeredScrobblers
  /\ forall st2 : State, targets st2 = targets st.
Proof.
  assert (Htargets : forall st0,
    receivers MToggleLove
      (newCalls st0
         (fst (toggleLove heap registeredScrobblers songInfo loveStatus
                 st0)))
    = filter (fun s => canLoveSong (heap s)) registeredScrobblers).
  { intros st0.
    destruct (toggleLove_calls songInfo loveStatus st0)
      as (checks & Hcalls & Honly).
    rewrite (newCalls_app _ _ _ Hcalls), receivers_app.
    rewrite receivers_same by reflexivity.
    rewrite (receivers_ready_checks MToggleLove checks) by easy.
    apply app_nil_r. }
  cbv zeta. split; [apply Htargets |].
  intros st2. now rewrite !Htargets.
Qed.

Lemma find_absent {A} (f : A -> bool) (l : list A) :
  (forall x, In x l -> f x = false) -> find f l = None.
Proof.
  induction l as [| a rest IH]; intros Hall; simpl; [reflexivity |].
  rewrite (Hall a) by now left.
  apply IH. intros x Hin. apply Hall. now right.
Qed.

Lemma getScrobblerById_unknown (scrobblerId : string) :
  ~ In scrobblerId (map (fun s => getId (heap s)) registeredScrobblers) ->
  getScrobblerById heap registeredScrobblers scrobblerId = None.
Proof.
  intros Hunknown. apply find_absent. intros s Hin.
  apply String.eqb_neq. intros Hid. apply Hunknown.
  rewrite <- Hid. exact (in_map (fun x => getId (heap x)) _ s Hin).
Qed.

Lemma scrobbleCalls_receivers (scrobblers : list (option Ref)) :
  receivers MScrobble (scrobbleCalls scrobblers) = nonNull scrobblers.
Proof.
  unfold scrobbleCalls, nonNull.
  induction scrobblers as [| [s |] rest IH]; simpl;
    [reflexivity | | exact IH].
  unfold receivers in *. simpl. now rewrite IH.
Qed.

(** [sendScrobbleRequest] on any array, null entries included. *)
Lemma sendScrobbleRequest_forwards (scrobblers : list (option Ref))
  (songInfo : SongInfo) (st : State) :
  sendScrobbleRequest heap scrobblers songInfo st
  = (logCalls (scrobbleCalls scrobblers) st,
     Promise_all
       (map (fun o => snd (scrobbleSlot heap songInfo o st)) scrobblers)).
Proof.
  unfold sendScrobbleRequest.
  rewrite (settle_pure (scrobbleSlot heap songInfo)
             (fun o => snd (scrobbleSlot heap songInfo o st))).
  - reflexivity.
  - intros [s |] _; reflexivity.
Qed.

(** C9.  [getScrobblerById] gives null for a string that is the ID of no
    registered scrobbler.  [scrobbleWithScrobblers] on a list that
    contains such a string therefore hands an array with a null entry
    to [sendScrobbleRequest], which runs it like any other array: the
    scrobblers of the known IDs get their [scrobble] call, the slot of
    the null entry ends in a [TypeError], and the aggregate is rejected
    only then.  There is no check of the IDs before the dispatch. *)
Theorem unknown_id_reaches_dispatch (scrobblerId : string) :
  ~ In scrobblerId (map (fun s => getId (heap s)) registeredScrobblers) ->
  getScrobblerById heap registeredScrobblers scrobblerId = None
  /\ forall (songInfo : SongInfo) (scrobblerIds : list string) (st : State),
       In scrobblerId scrobblerIds ->
       let scrobblers :=
         map (getScrobblerById heap registeredScrobblers) scrobblerIds in
       let run :=
         scrobbleWithScrobblers heap registeredScrobblers songInfo
           scrobblerIds st in
       In None scrobblers
       /\ run = sendScrobbleRequest heap scrobblers songInfo st
       /\ receivers MScrobble (newCalls st (fst run)) = nonNull scrobblers
       /\ scrobbleSlot heap songInfo None st
          = (st, Rejected (TypeError "result.is is not a function"))
       /\ boundScrobblers (fst run) = boundScrobblers st
       /\ exists e, snd run = Rejected e.
Proof.
  intros Hunknown.
  pose proof (getScrobblerById_unknown scrobblerId Hunknown) as Hnull.
  split; [exact Hnull |].
  intros songInfo scrobblerIds st Hin scrobblers run.
  assert (Hentry : In None scrobblers).
  { rewrite <- Hnull.
    exact (in_map (getScrobblerById heap registeredScrobblers) _ _ Hin). }
  subst run. unfold scrobbleWithScrobblers. fold scrobblers.
  rewrite sendScrobbleRequest_forwards. simpl.
  split; [exact Hentry |]. split; [reflexivity |].
  split; [| split; [reflexivity | split; [reflexivity |]]].
  - rewrite (newCalls_app st _ (scrobbleCalls scrobblers)) by reflexivity.
    apply scrobbleCalls_receivers.
  - apply (Promise_all_rejected _
             (TypeError "result.is is not a function")).
    exact (in_map (fun o => snd (scrobbleSlot heap songInfo o st))
             _ None Hentry).
Qed.

Lemma bindOne_invoked (s : Ref) (st : State) :
  invoked (bindOne heap s st) = invoked st ++ [(s, MGetSession)].
Proof. unfold bindOne. now destruct (getSession (heap s)). Qed.

Lemma bindOne_bound (s : Ref) (st : State) :
  boundScrobblers (bindOne heap s st)
  = if isFulfilled (getSession (heap s))
    then bindArray heap s (boundScrobblers st)
    else boundScrobblers st.
Proof. unfold bindOne. now destruct (getSession (heap s)). Qed.

Lemma bindArray_keeps (x s : Ref) (bound : list Ref) :
  In x bound -> In x (bindArray heap s bound).
Proof.
  intros Hin. unfold bindArray.
  destruct (negb (isScrobblerInArray heap s bound)); [| exact Hin].
  apply in_or_app. now left.
Qed.

Lemma bindArray_keeps_id (x s : Ref) (bound : list Ref) :
  isScrobblerInArray heap x bound = true ->
  isScrobblerInArray heap x (bindArray heap s bound) = true.
Proof.
  intros Hin. unfold bindArray.
  destruct (negb (isScrobblerInArray heap s bound)); [| exact Hin].
  unfold isScrobblerInArray in *. rewrite existsb_app, Hin. reflexivity.
Qed.

Lemma bindArray_adds (x s : Ref) (bound : list Ref) :
  In x (bindArray heap s bound) -> In x bound \/ x = s.
Proof.
  unfold bindArray.
  destruct (negb (isScrobblerInArray heap s bound)); [| tauto].
  rewrite in_app_iff. simpl. intuition.
Qed.

(** The loop of [bindAllScrobblers], over any part of the array. *)
Lemma bindAll_invoked (l : list Ref) (st : State) :
  invoked (fold_left (fun acc s => bindOne heap s acc) l st)
  = invoked st ++ map (fun s => (s, MGetSession)) l.
Proof.
  revert st. induction l as [| s rest IH]; intros st; simpl.
  - now rewrite app_nil_r.
  - rewrite IH, bindOne_invoked, <- app_assoc. reflexivity.
Qed.

Lemma bindAll_keeps (l : list Ref) (st : State) (x : Ref) :
  In x (boundScrobblers st) ->
  In x (boundScrobblers (fold_left (fun acc s => bindOne heap s acc) l st)).
Proof.
  revert st. induction l as [| s rest IH]; intros st Hin; simpl;
    [exact Hin |].
  apply IH. rewrite bindOne_bound.
  destruct (isFulfilled (getSession (heap s)));
    [now apply bindArray_keeps | exact Hin].
Qed.

Lemma bindAll_keeps_id (l : list Ref) (st : State) (x : Ref) :
  isScrobblerInArray heap x (boundScrobblers st) = true ->
  isScrobblerInArray heap x
    (boundScrobblers (fold_left (fun acc s => bindOne heap s acc) l st))
  = true.
Proof.
  revert st. induction l as [| s rest IH]; intros st Hin; simpl;
    [exact Hin |].
  apply IH. rewrite bindOne_bound.
  destruct (isFulfilled (getSession (heap s)));
    [now apply bindArray_keeps_id | exact Hin].
Qed.

Lemma bindAll_binds (l : list Ref) (st : State) (s : Ref) :
  In s l -> isFulfilled (getSession (heap s)) = true ->
  isScrobblerInArray heap s
    (boundScrobblers (fold_left (fun acc s => bindOne heap s acc) l st))
  = true.
Proof.
  revert st. induction l as [| y rest IH]; intros st Hin Hok;
    [destruct Hin |].
  simpl. destruct Hin as [-> | Hin]; [| now apply IH].
  apply bindAll_keeps_id. rewrite bindOne_bound, Hok.
  apply bindArray_bound.
Qed.

Lemma bindAll_sound (l : list Ref) (st : State) (x : Ref) :
  In x (boundScrobblers (fold_left (fun acc s => bindOne heap s acc) l st)) ->
  In x (boundScrobblers st)
  \/ (In x l /\ isFulfilled (getSession (heap x)) = true).
Proof.
  revert st. induction l as [| s rest IH]; intros st Hin; simpl in *;
    [now left |].
  destruct (IH _ Hin) as [Hold | [Hrest Hok]]; [| tauto].
  rewrite bindOne_bound in Hold.
  destruct (isFulfilled (getSession (heap s))) eqn:Hs; [| now left].
  destruct (bindArray_adds _ _ _ Hold) as [H | ->]; [now left |].
  right. split; [now left | exact Hs].
Qed.

Lemma bindAll_uniqueIds (l : list Ref) (st : State) :
  uniqueIds heap (boundScrobblers st) ->
  uniqueIds heap
    (boundScrobblers (fold_left (fun acc s => bindOne heap s acc) l st)).
Proof.
  revert st. induction l as [| s rest IH]; intros st Huniq; simpl;
    [exact Huniq |].
  apply IH. rewrite bindOne_bound.
  destruct (isFulfilled (getSession (heap s)));
    [now apply bindArray_uniqueIds | exact Huniq].
Qed.

(** C5.  [bindAllScrobblers] asks every registered scrobbler for its
    session, once each, whether or not the attempts before it failed;
    its own promise is always fulfilled.  Every registered scrobbler
    whose [getSession] succeeds is bound afterwards; nothing is bound
    that was not bound before or did not succeed; what was bound stays
    bound.  The value returned is the bound array as the loop leaves
    it. *)
Theorem bindAllScrobblers_binds_each_success (st : State) :
  let run := bindAllScrobblers heap registeredScrobblers st in
  let st' := fst run in
  snd run = Fulfilled (boundScrobblers st')
  /\ receivers MGetSession (newCalls st st') = registeredScrobblers
  /\ (forall s, In s registeredScrobblers ->
        isFulfilled (getSession (heap s)) = true ->
        isScrobblerInArray heap s (boundScrobblers st') = true)
  /\ (forall s, In s (boundScrobblers st') ->
        In s (boundScrobblers st)
        \/ (In s registeredScrobblers
            /\ isFulfilled (getSession (heap s)) = true))
  /\ (forall s, In s (boundScrobblers st) -> In s (boundScrobblers st')).
Proof.
  unfold bindAllScrobblers. cbv zeta. simpl.
  split; [reflexivity |]. split; [| split; [| split]].
  - rewrite (newCalls_app st _ _ (bindAll_invoked registeredScrobblers st)).
    now apply receivers_same.
  - intros s. apply bindAll_binds.
  - intros s. apply bindAll_sound.
  - intros s. apply bindAll_keeps.
Qed.

End WithBackends.

End DispatchFacts.

(* ================================================================== *)
(** ** The manager on the concrete heap                                *)
(* ================================================================== *)

Module SampleFacts.
Import Api Backend Manager.

Lemma sample_uniqueIds : uniqueIds Sample.heap [0; 1; 2]%nat.
Proof.
  unfold uniqueIds. simpl.
  repeat constructor; simpl; intuition discriminate.
Qed.

Lemma sample_soleOwner : soleOwnerOfId Sample.heap 1%nat [0; 1; 2]%nat.
Proof.
  intros s [<- | [<- | [<- | []]]]; simpl; intros Hid;
    (reflexivity || discriminate).
Qed.

(** C1.  Three scrobblers are bound; the second rejects every call with
    an auth error and is not ready for grant access.  [scrobble] calls
    all three, and its aggregate is rejected with the error of the
    second as the scrobbler raised it: there is no array of three
    entries, [processErrorResult] has not run, and the second scrobbler
    is still bound.  [sendNowPlaying] in the same state is fulfilled
    with three entries, the auth error in the second slot, and has
    unbound the second scrobbler. *)
Theorem scrobble_rejects_when_one_scrobbler_fails :
  scrobble Sample.heap tt Sample.allBound
  = (mkState [0; 1; 2]%nat
       [(0, MScrobble); (1, MScrobble); (2, MScrobble)]%nat,
     Rejected (ThrownResult (Sample.authError "librefm")))
  /\ sendNowPlaying Sample.heap tt Sample.allBound
     = (mkState [0; 2]%nat
          [(0, MSendNowPlaying); (1, MSendNowPlaying);
           (2, MSendNowPlaying); (1, MIsReadyForGrantAccess)]%nat,
        Fulfilled
          [Sample.ok "lastfm"; Sample.authError "librefm";
           Sample.ok "listenbrainz"]).
Proof. split; reflexivity. Qed.

(** C4.  Objects 0 and 1 (Last.fm and Libre.fm) are bound, and object 3
    is a second instance with the ID of object 0.  Binding object 3
    changes nothing, since its ID is bound.  Unbinding it passes the
    membership test by ID, finds no index for the reference, and
    removes the last element, Libre.fm.  Binding it again changes
    nothing.  Libre.fm is bound after a single bind and unbound after
    bind, unbind, bind. *)
Theorem unbind_by_reference_drops_another_scrobbler :
  let bound := [0; 1]%nat in
  let once := bindArray Sample.heap 3%nat bound in
  let thrice :=
    bindArray Sample.heap 3%nat
      (unbindArray Sample.heap 3%nat
         (bindArray Sample.heap 3%nat bound)) in
  getId (Sample.heap 3%nat) = getId (Sample.heap 0%nat)
  /\ once = [0; 1]%nat
  /\ JsArray.indexOf 3%nat once = -1
  /\ unbindArray Sample.heap 3%nat once = [0]%nat
  /\ thrice = [0]%nat
  /\ isScrobblerInArray Sample.heap 1%nat once = true
  /\ isScrobblerInArray Sample.heap 1%nat thrice = false.
Proof. cbv zeta. repeat split; reflexivity. Qed.


End SampleFacts.

(* ================================================================== *)
(** ** The auth notification                                           *)
(* ================================================================== *)

Module ExtFacts.
Import Ext.

Lemma orZero_stored (n : Z) : orZero (Some n) = n.
Proof. simpl. destruct (Z.eqb_spec n 0); congruence. Qed.

Lemma allowed_iff (st : State) :
  isAuthNotificationAllowed st = true
  <-> orZero (authDisplayCount (notificationStorage st)) < 3.
Proof. unfold isAuthNotificationAllowed. apply Z.ltb_lt. Qed.

Lemma show_allowed (supported : bool) (st : State) :
  isAuthNotificationAllowed st = true ->
  showAuthNotification supported st
  = mkState
      (mkAuthStorage
         (Some (orZero (authDisplayCount (notificationStorage st)) + 1)))
      (displayed st
         ++ [if supported then AuthNotification else AccountsTab]).
Proof. intros H. unfold showAuthNotification. now rewrite H. Qed.

Lemma show_refused (supported : bool) (st : State) :
  isAuthNotificationAllowed st = false ->
  showAuthNotification supported st = st.
Proof. intros H. unfold showAuthNotification. now rewrite H. Qed.

Lemma lifetime_exhausted (calls : list bool) (st : State) :
  3 <= orZero (authDisplayCount (notificationStorage st)) ->
  lifetime calls st = st.
Proof.
  intros Hfull. induction calls as [| c rest IH]; [reflexivity |].
  unfold lifetime in *. simpl. rewrite show_refused; [exact IH |].
  unfold isAuthNotificationAllowed. apply Z.ltb_ge. exact Hfull.
Qed.

(** How many displays a series of calls adds. *)
Lemma lifetime_displays (calls : list bool) (st : State) :
  List.length (displayed (lifetime calls st))
  = (List.length (displayed st)
     + Nat.min (List.length calls)
         (Z.to_nat
            (3 - orZero (authDisplayCount (notificationStorage st)))))%nat.
Proof.
  revert st. induction calls as [| c rest IH]; intros st.
  - simpl. lia.
  - change (lifetime (c :: rest) st)
      with (lifetime rest (showAuthNotification c st)).
    rewrite IH.
    destruct (isAuthNotificationAllowed st) eqn:Hallowed.
    + rewrite show_allowed by exact Hallowed.
      apply allowed_iff in Hallowed.
      cbn [displayed notificationStorage authDisplayCount].
      rewrite orZero_stored, length_app.
      cbn [List.length].
      set (count := orZero (authDisplayCount (notificationStorage st))) in *.
      lia.
    + rewrite show_refused by exact Hallowed.
      unfold isAuthNotificationAllowed in Hallowed.
      apply Z.ltb_ge in Hallowed.
      unfold authNotificationDisplayCount in Hallowed.
      cbn [List.length].
      set (count := orZero (authDisplayCount (notificationStorage st))) in *.
      lia.
Qed.

(** C10.  [isAuthNotificationAllowed] holds exactly when the stored
    count, 0 when nothing is stored, is below 3.  A call of
    [showAuthNotification] that is allowed shows one thing and stores
    the count plus one; a call that is not allowed shows nothing and
    stores nothing.  Hence once the count is 3 or more no further call
    shows anything, and from a fresh installation at most three
    displays ever happen, the first three calls. *)
Theorem auth_notification_shown_at_most_three_times :
  orZero None = 0
  /\ (forall st,
        isAuthNotificationAllowed st = true
        <-> orZero (authDisplayCount (notificationStorage st)) < 3)
  /\ (forall supported st,
        isAuthNotificationAllowed st = true ->
        let st' := showAuthNotification supported st in
        List.length (displayed st') = S (List.length (displayed st))
        /\ authDisplayCount (notificationStorage st')
           = Some (orZero (authDisplayCount (notificationStorage st)) + 1))
  /\ (forall supported st,
        isAuthNotificationAllowed st = false ->
        showAuthNotification supported st = st)
  /\ (forall calls st,
        3 <= orZero (authDisplayCount (notificationStorage st)) ->
        lifetime calls st = st)
  /\ (forall calls,
        List.length (displayed (lifetime calls fresh))
        = Nat.min (List.length calls) 3).
Proof.
  split; [reflexivity |]. split; [exact allowed_iff |].
  split; [| split; [exact show_refused |
                    split; [exact lifetime_exhausted |]]].
  - intros supported st Hallowed. cbv zeta.
    rewrite show_allowed by exact Hallowed. simpl.
    rewrite length_app. simpl. split; [lia | reflexivity].
  - intros calls. rewrite lifetime_displays. reflexivity.
Qed.

End ExtFacts.

(* ================================================================== *)
(** ** The duration parser                                             *)
(* ================================================================== *)

Module UtilFacts.
Import Util.

(** The rows of the test table of [stringToSeconds]: hours,
    minutes and seconds, with and without trailing whitespace; a
    negative time; minutes and seconds; seconds alone; the empty string
    and null, which give 0. *)
Theorem stringToSeconds_test_table :
  stringToSeconds (Some "01:10:30 ") = 4230
  /\ stringToSeconds (Some "01:10:30") = 4230
  /\ stringToSeconds (Some "-01:10") = -70
  /\ stringToSeconds (Some "05:20") = 320
  /\ stringToSeconds (Some "20") = 20
  /\ stringToSeconds (Some "") = 0
  /\ stringToSeconds None = 0.
Proof. repeat split; reflexivity. Qed.

Lemma digit_range (c : ascii) :
  isDigit c = true -> (48 <= nat_of_ascii c <= 57)%nat.
Proof.
  unfold isDigit, digitValue. cbv zeta.
  destruct ((48 <=? nat_of_ascii c) && (nat_of_ascii c <=? 57))%nat eqn:E;
    [| discriminate].
  apply andb_true_iff in E as [H1 H2].
  apply Nat.leb_le in H1. apply Nat.leb_le in H2. intros _. lia.
Qed.

Lemma digitValue_digit (c : ascii) :
  isDigit c = true ->
  digitValue c = Some (Z.of_nat (nat_of_ascii c) - 48).
Proof.
  unfold isDigit, digitValue. cbv zeta.
  now destruct ((48 <=? nat_of_ascii c) && (nat_of_ascii c <=? 57))%nat.
Qed.

Lemma digit_not_whitespace (c : ascii) :
  isDigit c = true -> isWhitespace c = false.
Proof.
  intros H. apply digit_range in H. unfold isWhitespace. cbv zeta.
  rewrite !orb_false_iff. repeat split; apply Nat.eqb_neq; lia.
Qed.

Lemma digit_not_char (c d : ascii) :
  isDigit c = true -> isDigit d = false -> Ascii.eqb c d = false.
Proof.
  intros Hc Hd. destruct (Ascii.eqb_spec c d); [subst; congruence |].
  reflexivity.
Qed.

Lemma digitsFrom_numeral (s : list ascii) (acc : Z) :
  forallb isDigit s = true ->
  digitsFrom acc s
  = Some (fold_left
            (fun a c => a * 10 + (Z.of_nat (nat_of_ascii c) - 48)) s acc).
Proof.
  revert acc. induction s as [| c rest IH]; intros acc Hall; simpl;
    [reflexivity |].
  simpl in Hall. apply andb_true_iff in Hall as [Hc Hrest].
  rewrite (digitValue_digit c Hc). now apply IH.
Qed.

Lemma parseField_numeral (f : list ascii) :
  numeral f -> parseField f = Some (decimal f).
Proof.
  intros [Hne Hall]. destruct f as [| c rest]; [contradiction |].
  unfold parseField, decimal. now apply digitsFrom_numeral.
Qed.

Lemma parseFields_numerals (fields : list (list ascii)) :
  Forall numeral fields -> parseFields fields = Some (map decimal fields).
Proof.
  induction 1 as [| f rest Hf _ IH]; simpl; [reflexivity |].
  now rewrite (parseField_numeral f Hf), IH.
Qed.

Lemma splitColon_field (f cur rest : list ascii) :
  forallb isDigit f = true ->
  splitColon cur (f ++ rest) = splitColon (rev f ++ cur) rest.
Proof.
  revert cur. induction f as [| c f' IH]; intros cur Hall; simpl;
    [reflexivity |].
  simpl in Hall. apply andb_true_iff in Hall as [Hc Hrest].
  rewrite (digit_not_char c ":"%char Hc eq_refl), (IH _ Hrest).
  now rewrite <- app_assoc.
Qed.

Lemma splitColon_joinColon (fields : list (list ascii)) :
  Forall numeral fields -> fields <> [] ->
  splitColon [] (joinColon fields) = fields.
Proof.
  induction fields as [| f rest IH]; intros Hall Hne; [contradiction |].
  inversion Hall as [| ? ? [_ Hf] Hrest]; subst.
  destruct rest as [| g rest'].
  - simpl. rewrite <- (app_nil_r f) at 1.
    rewrite (splitColon_field f [] [] Hf). simpl.
    now rewrite app_nil_r, rev_involutive.
  - change (joinColon (f :: g :: rest'))
      with (f ++ ":"%char :: joinColon (g :: rest')).
    rewrite (splitColon_field f [] _ Hf).
    change (splitColon (rev f ++ []) (":"%char :: joinColon (g :: rest')))
      with (rev (rev f ++ []) :: splitColon [] (joinColon (g :: rest'))).
    rewrite app_nil_r, rev_involutive, IH; [reflexivity | exact Hrest |].
    discriminate.
Qed.

Lemma trimStart_blank (pre s : list ascii) :
  blank pre -> trimStart (pre ++ s) = trimStart s.
Proof.
  unfold blank. induction pre as [| c rest IH]; intros Hall; simpl;
    [reflexivity |].
  simpl in Hall. apply andb_true_iff in Hall as [Hc Hrest].
  rewrite Hc. now apply IH.
Qed.

Lemma blank_rev (s : list ascii) : blank s -> blank (rev s).
Proof.
  unfold blank. rewrite !forallb_forall. intros Hall c Hin.
  apply Hall. now apply in_rev.
Qed.

Lemma trim_core (pre body post r r' : list ascii) (c c' : ascii) :
  blank pre -> blank post ->
  body = c :: r -> isWhitespace c = false ->
  rev body = c' :: r' -> isWhitespace c' = false ->
  trim (pre ++ body ++ post) = body.
Proof.
  intros Hpre Hpost Hbody Hc Hrev Hc'. unfold trim.
  assert (H1 : trimStart (pre ++ body ++ post) = body ++ post).
  { rewrite (trimStart_blank pre _ Hpre), Hbody. simpl. now rewrite Hc. }
  rewrite H1, rev_app_distr, (trimStart_blank _ _ (blank_rev post Hpost)).
  rewrite Hrev. simpl. rewrite Hc', <- Hrev. apply rev_involutive.
Qed.

Lemma joinColon_head (fields : list (list ascii)) :
  Forall numeral fields -> fields <> [] ->
  exists c r, joinColon fields = c :: r /\ isDigit c = true.
Proof.
  intros Hall Hne. destruct fields as [| f rest]; [contradiction |].
  inversion Hall as [| ? ? [Hf Hdigits] _]; subst.
  destruct f as [| c f']; [contradiction |].
  simpl in Hdigits. apply andb_true_iff in Hdigits as [Hc _].
  destruct rest; simpl; eauto.
Qed.

Lemma joinColon_last (fields : list (list ascii)) :
  Forall numeral fields -> fields <> [] ->
  exists c r, rev (joinColon fields) = c :: r /\ isDigit c = true.
Proof.
  induction fields as [| f rest IH]; intros Hall Hne; [contradiction |].
  inversion Hall as [| ? ? [Hf Hdigits] Hrest]; subst.
  destruct rest as [| g rest'].
  - simpl. destruct (rev f) as [| c r] eqn:E.
    + exfalso. apply Hf. rewrite <- (rev_involutive f), E. reflexivity.
    + exists c, r. split; [reflexivity |].
      apply (proj1 (forallb_forall isDigit f) Hdigits).
      apply in_rev. rewrite E. now left.
  - change (joinColon (f :: g :: rest'))
      with (f ++ ":"%char :: joinColon (g :: rest')).
    destruct (IH Hrest) as (c & r & Hrev & Hc); [discriminate |].
    remember (joinColon (g :: rest')) as J.
    exists c, (r ++ [":"%char] ++ rev f). split; [| exact Hc].
    rewrite rev_app_distr.
    change (rev (":"%char :: J)) with (rev J ++ [":"%char]).
    rewrite Hrev. simpl. now rewrite <- !app_assoc.
Qed.

(** The law for one, two or three fields at once. *)
Lemma stringToSeconds_fields (pre post : list ascii) (negative : bool)
  (fields : list (list ascii)) :
  blank pre -> blank post ->
  Forall numeral fields -> fields <> [] ->
  (List.length fields <= 3)%nat ->
  stringToSeconds
    (text (pre ++ sign negative ++ joinColon fields ++ post))
  = signed negative
      (fold_left (fun acc v => acc * 60 + v) (map decimal fields) 0).
Proof.
  intros Hpre Hpost Hall Hne Hlen.
  destruct (joinColon_head fields Hall Hne) as (c & r & Hhead & Hc).
  destruct (joinColon_last fields Hall Hne) as (c' & r' & Hlast & Hc').
  unfold stringToSeconds, text.
  rewrite list_ascii_of_string_of_list_ascii.
  assert (Htrim :
    trim (pre ++ sign negative ++ joinColon fields ++ post)
    = sign negative ++ joinColon fields).
  { rewrite (app_assoc (sign negative)).
    destruct negative; simpl sign.
    - apply (trim_core pre _ post (joinColon fields)
               (r' ++ ["-"%char]) "-"%char c');
        try assumption; try reflexivity.
      + simpl. now rewrite Hlast.
      + now apply digit_not_whitespace.
    - apply (trim_core pre _ post r r' c c'); try assumption.
      + now apply digit_not_whitespace.
      + now apply digit_not_whitespace. }
  rewrite Htrim.
  assert (Hsplit :
    (match sign negative ++ joinColon fields with
     | ch :: rest =>
         if Ascii.eqb ch "-"%char
         then (true, rest)
         else (false, sign negative ++ joinColon fields)
     | [] => (false, sign negative ++ joinColon fields)
     end) = (negative, joinColon fields)).
  { destruct negative; simpl sign; [reflexivity |].
    simpl. rewrite Hhead.
    now rewrite (digit_not_char c "-"%char Hc eq_refl). }
  rewrite Hsplit.
  rewrite (splitColon_joinColon fields Hall Hne).
  rewrite (proj2 (Nat.leb_le _ _) Hlen).
  now rewrite (parseFields_numerals fields Hall).
Qed.

Lemma blank_only (ws : list ascii) :
  blank ws -> stringToSeconds (text ws) = 0.
Proof.
  intros Hws. unfold stringToSeconds, text.
  rewrite list_ascii_of_string_of_list_ascii.
  assert (Htrim : trim ws = []).
  { unfold trim.
    assert (H : forall s, blank s -> trimStart s = []).
    { intros s Hs. rewrite <- (app_nil_r s).
      now rewrite (trimStart_blank s [] Hs). }
    now rewrite (H ws Hws). }
  now rewrite Htrim.
Qed.

(** C6.  The parsing law of [stringToSeconds].  A missing text, the
    empty text and a text of whitespace only give 0.  After whitespace
    on either side is trimmed and with an optional leading minus sign,
    three numbers with colons between them are read as hours, minutes
    and seconds, two as minutes and seconds, one as seconds, and the
    sign is applied to the total.  The rows of the test table are
    instances: 01:10:30 with or without trailing whitespace gives 4230,
    -01:10 gives -70, 05:20 gives 320, 20 gives 20, the empty string
    and null give 0. *)
Theorem stringToSeconds_parsing_law :
  stringToSeconds None = 0
  /\ stringToSeconds (Some "") = 0
  /\ (forall ws, blank ws -> stringToSeconds (text ws) = 0)
  /\ (forall pre post negative h m s,
        blank pre -> blank post ->
        numeral h -> numeral m -> numeral s ->
        stringToSeconds
          (text (pre ++ sign negative
                   ++ h ++ ":"%char :: m ++ ":"%char :: s ++ post))
        = signed negative
            (decimal h * 3600 + decimal m * 60 + decimal s))
  /\ (forall pre post negative m s,
        blank pre -> blank post -> numeral m -> numeral s ->
        stringToSeconds
          (text (pre ++ sign negative ++ m ++ ":"%char :: s ++ post))
        = signed negative (decimal m * 60 + decimal s))
  /\ (forall pre post negative s,
        blank pre -> blank post -> numeral s ->
        stringToSeconds (text (pre ++ sign negative ++ s ++ post))
        = signed negative (decimal s))
  /\ stringToSeconds (Some "01:10:30 ") = 4230
  /\ stringToSeconds (Some "01:10:30") = 4230
  /\ stringToSeconds (Some "-01:10") = -70
  /\ stringToSeconds (Some "05:20") = 320
  /\ stringToSeconds (Some "20") = 20.
Proof.
  split; [reflexivity |]. split; [reflexivity |].
  split; [exact blank_only |].
  split; [| split; [| split; [| repeat split; reflexivity]]].
  - intros pre post negative h m s Hpre Hpost Hh Hm Hs.
    replace (pre ++ sign negative
               ++ h ++ ":"%char :: m ++ ":"%char :: s ++ post)
      with (pre ++ sign negative ++ joinColon [h; m; s] ++ post)
      by (cbn [joinColon];
          repeat (rewrite <- app_assoc; cbn [app]); reflexivity).
    rewrite (stringToSeconds_fields pre post negative [h; m; s]
               Hpre Hpost);
      [f_equal; cbn [map fold_left]; lia | | discriminate | simpl; lia].
    exact (Forall_cons _ Hh (Forall_cons _ Hm
             (Forall_cons _ Hs (Forall_nil _)))).
  - intros pre post negative m s Hpre Hpost Hm Hs.
    replace (pre ++ sign negative ++ m ++ ":"%char :: s ++ post)
      with (pre ++ sign negative ++ joinColon [m; s] ++ post)
      by (cbn [joinColon];
          repeat (rewrite <- app_assoc; cbn [app]); reflexivity).
    rewrite (stringToSeconds_fields pre post negative [m; s] Hpre Hpost);
      [f_equal; cbn [map fold_left]; lia | | discriminate | simpl; lia].
    exact (Forall_cons _ Hm (Forall_cons _ Hs (Forall_nil _))).
  - intros pre post negative s Hpre Hpost Hs.
    change (pre ++ sign negative ++ s ++ post)
      with (pre ++ sign negative ++ joinColon [s] ++ post).
    rewrite (stringToSeconds_fields pre post negative [s] Hpre Hpost);
      [f_equal; cbn [map fold_left]; lia | | discriminate | simpl; lia].
    exact (Forall_cons _ Hs (Forall_nil _)).
Qed.

End UtilFacts.

(* ================================================================== *)
(** ** Instances                                                       *)
(* ================================================================== *)

Module Witnesses.
Import Api Backend Manager.

Lemma processErrorResult_auth_error_witness :
  is_ (Sample.authError "librefm") ERROR_AUTH = true
  /\ isReadyForGrantAccess (Sample.heap 1%nat) = Fulfilled false
  /\ uniqueIds Sample.heap (boundScrobblers Sample.allBound)
  /\ snd (processErrorResult Sample.heap (Some 1%nat)
            (ThrownResult (Sample.authError "librefm")) Sample.allBound)
     = Fulfilled (Sample.authError "librefm")
  /\ ~ In 1%nat
       (boundScrobblers
          (fst (processErrorResult Sample.heap (Some 1%nat)
                  (ThrownResult (Sample.authError "librefm"))
                  Sample.allBound))).
Proof.
  split; [reflexivity |]. split; [reflexivity |].
  split; [exact SampleFacts.sample_uniqueIds |].
  destruct (ErrorResultFacts.processErrorResult_auth_error
              unit string Sample.heap 1%nat (Sample.authError "librefm")
              false Sample.allBound eq_refl eq_refl
              SampleFacts.sample_uniqueIds)
    as (Hout & _ & Hunbound).
  split; [exact Hout |].
  exact (proj1 (Hunbound eq_refl)).
Defined.

Lemma processErrorResult_unclassified_witness :
  isClassifiedError (ThrownResult (Sample.ok "lastfm")) = false
  /\ exists e,
       processErrorResult Sample.heap (Some 0%nat)
         (ThrownResult (Sample.ok "lastfm")) Sample.allBound
       = (Sample.allBound, Rejected e).
Proof.
  split; [reflexivity |].
  apply (ErrorResultFacts.processErrorResult_unclassified
           unit string Sample.heap (Some 0%nat)
           (ThrownResult (Sample.ok "lastfm")) Sample.allBound).
  reflexivity.
Defined.

Lemma unknown_id_reaches_dispatch_witness :
  ~ In "spotify"
      (map (fun s => getId (Sample.heap s)) Sample.registeredScrobblers)
  /\ getScrobblerById Sample.heap Sample.registeredScrobblers "spotify"
     = None
  /\ exists e,
       snd (scrobbleWithScrobblers Sample.heap Sample.registeredScrobblers
              tt ["lastfm"; "spotify"] Sample.noneBound)
       = Rejected e.
Proof.
  assert (Hunknown :
    ~ In "spotify"
        (map (fun s => getId (Sample.heap s))
           Sample.registeredScrobblers)).
  { simpl. intuition discriminate. }
  split; [exact Hunknown |].
  destruct (DispatchFacts.unknown_id_reaches_dispatch
              unit string Sample.heap Sample.registeredScrobblers
              "spotify" Hunknown) as [Hnull Hrun].
  split; [exact Hnull |].
  apply (Hrun tt ["lastfm"; "spotify"] Sample.noneBound).
  right. now left.
Defined.

End Witnesses.

(* ================================================================== *)
(** ** Objects, the storage stub and the storage namespaces            *)
(* ================================================================== *)

Module ObjectFacts.
Import JsObject.

Lemma lookup_setProperty {V} (key key' : string) (value : V)
  (object : Obj V) :
  lookup key' (setProperty key value object)
  = if String.eqb key key' then Some value else lookup key' object.
Proof.
  induction object as [| [k v] rest IH]; simpl.
  - now destruct (String.eqb key key').
  - destruct (String.eqb_spec k key) as [-> | Hne]; simpl.
    + now destruct (String.eqb key key').
    + destruct (String.eqb_spec k key') as [-> | Hne'].
      * destruct (String.eqb_spec key key'); [congruence | reflexivity].
      * exact IH.
Qed.

Lemma lookup_deleteProperty {V} (key key' : string) (object : Obj V) :
  lookup key' (deleteProperty key object)
  = if String.eqb key key' then None else lookup key' object.
Proof.
  induction object as [| [k v] rest IH]; simpl.
  - now destruct (String.eqb key key').
  - destruct (String.eqb_spec k key) as [-> | Hne]; simpl.
    + rewrite IH. now destruct (String.eqb key key').
    + rewrite IH.
      destruct (String.eqb_spec k key') as [-> | Hne'];
        [| reflexivity].
      destruct (String.eqb_spec key key'); [congruence | reflexivity].
Qed.

Lemma lookup_absent {V} (key : string) (object : Obj V) :
  ~ In key (map fst object) -> lookup key object = None.
Proof.
  induction object as [| [k v] rest IH]; simpl; intros Hnot;
    [reflexivity |].
  destruct (String.eqb_spec k key) as [-> | Hne]; [tauto |].
  apply IH. tauto.
Qed.

Lemma lookup_member {V} (key : string) (value : V) (object : Obj V) :
  wellFormed object -> In (key, value) object ->
  lookup key object = Some value.
Proof.
  unfold wellFormed.
  induction object as [| [k v] rest IH]; simpl; intros Hwf Hin;
    [destruct Hin |].
  inversion Hwf as [| ? ? Hfresh Hrest]; subst.
  destruct Hin as [[= -> ->] | Hin].
  - now rewrite String.eqb_refl.
  - destruct (String.eqb_spec k key) as [-> | Hne]; [| now apply IH].
    exfalso. apply Hfresh.
    exact (in_map fst _ _ Hin).
Qed.

Lemma lookup_assign {V} (key : string) (target source : Obj V) :
  wellFormed source ->
  lookup key (Object_assign target source)
  = match lookup key source with
    | Some v => Some v
    | None => lookup key target
    end.
Proof.
  unfold Object_assign, wellFormed. revert target.
  induction source as [| [k v] rest IH]; intros target Hwf; simpl;
    [reflexivity |].
  inversion Hwf as [| ? ? Hfresh Hrest]; subst.
  rewrite (IH _ Hrest), lookup_setProperty. simpl.
  destruct (String.eqb_spec k key) as [-> | Hne]; [| reflexivity].
  now rewrite (lookup_absent key rest Hfresh).
Qed.

Lemma setProperty_same {V} (key : string) (value : V) (object : Obj V) :
  lookup key object = Some value -> setProperty key value object = object.
Proof.
  induction object as [| [k v] rest IH]; simpl; [discriminate |].
  destruct (String.eqb_spec k key) as [-> | Hne].
  - now intros [= ->].
  - intros H. now rewrite IH.
Qed.

Lemma assign_present {V} (source object : Obj V) :
  (forall kv, In kv source -> lookup (fst kv) object = Some (snd kv)) ->
  Object_assign object source = object.
Proof.
  unfold Object_assign.
  induction source as [| [k v] rest IH]; intros Hall; simpl;
    [reflexivity |].
  rewrite (setProperty_same k v) by exact (Hall (k, v) (or_introl eq_refl)).
  apply IH. intros kv Hin. apply Hall. now right.
Qed.

Lemma setProperty_keys {V} (key : string) (value : V) (object : Obj V) :
  wellFormed object -> wellFormed (setProperty key value object).
Proof.
  unfold wellFormed.
  induction object as [| [k v] rest IH]; simpl; intros Hwf.
  - constructor; [tauto | constructor].
  - inversion Hwf as [| ? ? Hfresh Hrest]; subst.
    destruct (String.eqb_spec k key) as [-> | Hne]; simpl;
      [now constructor |].
    constructor; [| now apply IH].
    intros Hin. apply in_map_iff in Hin as ([k' v'] & Hk & Hin).
    simpl in Hk. subst k'.
    assert (Hl : lookup k (setProperty key value rest) <> None).
    { clear - Hin. induction (setProperty key value rest) as [| [a b] l IHl];
        [destruct Hin |].
      simpl. destruct (String.eqb_spec a k); [discriminate |].
      destruct Hin as [[= -> ->] | Hin]; [congruence | now apply IHl]. }
    rewrite lookup_setProperty in Hl.
    destruct (String.eqb_spec key k) as [-> | _]; [congruence |].
    apply Hl. now apply lookup_absent.
Qed.

Lemma lookup_in_keys {V} (key : string) (object : Obj V) :
  lookup key object <> None <-> In key (map fst object).
Proof.
  induction object as [| [k v] rest IH]; simpl; [tauto |].
  destruct (String.eqb_spec k key) as [-> | Hne].
  - split; [now left | discriminate].
  - rewrite IH. tauto.
Qed.

Lemma lookup_entry {V} (key : string) (value : V) (object : Obj V) :
  lookup key object = Some value -> In (key, value) object.
Proof.
  induction object as [| [k v] rest IH]; simpl; [discriminate |].
  destruct (String.eqb_spec k key) as [-> | Hne].
  - intros [= ->]. now left.
  - intros H. right. now apply IH.
Qed.

End ObjectFacts.

Module StorageFacts.
Import JsObject ObjectFacts.

(** X1.  After [set(data)] the stub reads, for each key, the value of
    [data] when [data] has the key and the value held before when it has
    not: [set] merges, it does not replace the stored object. *)
Theorem stub_set_then_get {V} (data : Obj V)
  (this : StorageAreaStub.StorageAreaStub V) (key : string) :
  wellFormed data ->
  lookup key (StorageAreaStub.get (StorageAreaStub.set data this))
  = match lookup key data with
    | Some v => Some v
    | None => lookup key (StorageAreaStub.get this)
    end.
Proof. intros Hwf. now apply lookup_assign. Qed.

(** X2.  After [remove(key)] the stub has no value for the key, and
    reads every other key as before; removing a key that was not stored
    changes nothing that can be read. *)
Theorem stub_remove_then_get {V} (this : StorageAreaStub.StorageAreaStub V)
  (key key' : string) :
  lookup key' (StorageAreaStub.get (StorageAreaStub.remove key this))
  = if String.eqb key key'
    then None
    else lookup key' (StorageAreaStub.get this).
Proof. apply lookup_deleteProperty. Qed.

(** X3.  Storing the same data twice leaves the stub as storing it once
    does. *)
Theorem stub_set_twice {V} (data : Obj V)
  (this : StorageAreaStub.StorageAreaStub V) :
  wellFormed data ->
  StorageAreaStub.set data (StorageAreaStub.set data this)
  = StorageAreaStub.set data this.
Proof.
  intros Hwf. unfold StorageAreaStub.set.
  apply assign_present. intros [k v] Hin. simpl.
  rewrite lookup_assign by exact Hwf.
  now rewrite (lookup_member k v data Hwf Hin).
Qed.

Import BrowserStorage.

Lemma storageTypeMap_wellFormed : wellFormed storageTypeMap.
Proof.
  unfold wellFormed, storageTypeMap. simpl.
  repeat constructor; simpl; intuition discriminate.
Qed.

Lemma known_namespace (namespace : string) :
  lookup namespace storageTypeMap <> None
  <-> In namespace
        [CONNECTORS_OPTIONS; CUSTOM_PATTERNS; NOTIFICATIONS; OPTIONS;
         SCROBBLE_STORAGE; LOCAL_CACHE; CORE].
Proof.
  change [CONNECTORS_OPTIONS; CUSTOM_PATTERNS; NOTIFICATIONS; OPTIONS;
          SCROBBLE_STORAGE; LOCAL_CACHE; CORE]
    with (map fst storageTypeMap).
  apply lookup_in_keys.
Qed.

Lemma sync_namespace (namespace : string) :
  lookup namespace storageTypeMap = Some SYNC
  <-> In namespace
        [CONNECTORS_OPTIONS; CUSTOM_PATTERNS; NOTIFICATIONS; OPTIONS].
Proof.
  split.
  - intros H. apply lookup_entry in H. unfold storageTypeMap in H.
    simpl in H.
    repeat (destruct H as [H | H]; [inversion H; subst; simpl; auto 10 |]).
    destruct H.
  - intros H. apply lookup_member; [exact storageTypeMap_wellFormed |].
    unfold storageTypeMap. simpl in *.
    repeat (destruct H as [H | H]; [subst; auto 10 |]).
    destruct H.
Qed.

(** X4.  [getStorage] throws exactly for the namespaces outside its
    table of seven, with a message that names the namespace; for each of
    the seven it gives a wrapper for that same namespace. *)
Theorem getStorage_known_namespaces (syncAvailable : bool)
  (namespace : string) :
  (In namespace
     [CONNECTORS_OPTIONS; CUSTOM_PATTERNS; NOTIFICATIONS; OPTIONS;
      SCROBBLE_STORAGE; LOCAL_CACHE; CORE]
   <-> exists wrapper,
         getStorage syncAvailable namespace = inr wrapper
         /\ BrowserStorage.namespace wrapper = namespace)
  /\ (~ In namespace
        [CONNECTORS_OPTIONS; CUSTOM_PATTERNS; NOTIFICATIONS; OPTIONS;
         SCROBBLE_STORAGE; LOCAL_CACHE; CORE]
      <-> getStorage syncAvailable namespace
          = inl ("Unknown storage namespace: " ++ namespace)%string).
Proof.
  rewrite <- known_namespace. unfold getStorage.
  destruct (lookup namespace storageTypeMap) as [[|] |]; split; split;
    try (intros _; eexists; split; reflexivity);
    try congruence; try discriminate;
    try (intros (wrapper & H & _); discriminate);
    try (intros H; exfalso; apply H; discriminate).
Qed.

(** X5.  [getScrobblerStorage] gives a wrapper on the local area for
    whatever namespace it is asked, the names of the scrobblers
    included, and never throws.  A wrapper from [getStorage] is on the
    sync area only when the browser has one and the namespace is one of
    the four marked [SYNC]; the namespaces marked [LOCAL] are on the
    local area, which is also the fallback without a sync area. *)
Theorem storage_area_choice (syncAvailable : bool) (namespace : string) :
  getScrobblerStorage namespace = mkWrapper LocalArea namespace
  /\ forall wrapper : StorageWrapper,
       getStorage syncAvailable namespace = inr wrapper ->
       (storageArea wrapper = SyncArea
        <-> syncAvailable = true
            /\ In namespace
                 [CONNECTORS_OPTIONS; CUSTOM_PATTERNS; NOTIFICATIONS;
                  OPTIONS]).
Proof.
  split; [reflexivity |]. intros wrapper.
  unfold getStorage. rewrite <- sync_namespace.
  destruct (lookup namespace storageTypeMap) as [[|] |] eqn:E;
    intros [= <-]; simpl.
  - split; [discriminate | intros [_ H]; discriminate].
  - destruct syncAvailable; simpl; split; try discriminate; auto.
    intros [H _]. discriminate.
Qed.

End StorageFacts.

Module UserInputFacts.
Import JsObject ObjectFacts UserInput.

Lemma copy_lookup (fields : list string) (editedSongInfo : Obj string)
  (acc : Obj (option string)) (field : string) :
  lookup field
    (fold_left
       (fun processed f =>
          setProperty f (lookup f editedSongInfo) processed)
       fields acc)
  = if existsb (String.eqb field) fields
    then Some (lookup field editedSongInfo)
    else lookup field acc.
Proof.
  revert acc. induction fields as [| f rest IH]; intros acc; simpl;
    [reflexivity |].
  rewrite IH, lookup_setProperty.
  destruct (existsb (String.eqb field) rest);
    [now rewrite orb_true_r |].
  rewrite orb_false_r, (String.eqb_sym field f).
  destruct (String.eqb_spec f field) as [-> | _]; reflexivity.
Qed.

(** X6.  When no edit is saved, [loadEditedSongInfo] gives the empty
    diff.  When one is saved the diff marks the song as corrected by
    the user and has a processed entry for each base field, holding the
    value of the edit or undefined where the edit lacks the field;
    whatever else the edit holds is not copied. *)
Theorem loadEditedSongInfo_copies_base_fields (BASE_FIELDS : list string) :
  loadEditedSongInfo BASE_FIELDS None = mkDiff None None
  /\ forall editedSongInfo : Obj string,
       exists processedFields,
         loadEditedSongInfo BASE_FIELDS (Some editedSongInfo)
         = mkDiff (Some processedFields) (Some (mkFlags true))
         /\ (forall field, In field BASE_FIELDS ->
               lookup field processedFields
               = Some (lookup field editedSongInfo))
         /\ (forall field, ~ In field BASE_FIELDS ->
               lookup field processedFields = None).
Proof.
  split; [reflexivity |]. intros editedSongInfo.
  exists (copyFields BASE_FIELDS editedSongInfo).
  split; [reflexivity |]. unfold copyFields.
  split; intros field Hin; rewrite copy_lookup.
  - assert (H : existsb (String.eqb field) BASE_FIELDS = true).
    { apply existsb_exists. exists field. split; [exact Hin |].
      apply String.eqb_refl. }
    now rewrite H.
  - assert (H : existsb (String.eqb field) BASE_FIELDS = false).
    { apply not_true_iff_false. intros Hex.
      apply existsb_exists in Hex as (f & Hf & Heq).
      apply String.eqb_eq in Heq. now subst. }
    now rewrite H.
Qed.

End UserInputFacts.

(* ================================================================== *)
(** ** More on the manager                                             *)
(* ================================================================== *)

Module ManagerMore.
Import Api Backend JsArray Manager JsArrayFacts BoundFacts PromiseFacts
  DispatchFacts.

Lemma Promise_all_fulfilled_iff {A} (ps : list (Settled A))
  (values : list A) :
  Promise_all ps = Fulfilled values <-> ps = map Fulfilled values.
Proof.
  split; [| intros ->; apply Promise_all_fulfilled].
  revert values. induction ps as [| p rest IH]; intros values; simpl.
  - now intros [= <-].
  - destruct p as [v | e]; [| discriminate].
    destruct (Promise_all rest) as [vs | e] eqn:E; [| discriminate].
    intros [= <-]. simpl. now rewrite (IH vs).
Qed.

Lemma settle_relates {A} (R : State -> State -> Prop)
  (reactions : list (Async A)) :
  (forall st, R st st) ->
  (forall a b c, R a b -> R b c -> R a c) ->
  (forall r, In r reactions -> forall st, R st (fst (r st))) ->
  forall st, R st (fst (settle reactions st)).
Proof.
  intros Hrefl Htrans.
  induction reactions as [| r rest IH]; intros Hall st; simpl;
    [apply Hrefl |].
  pose proof (Hall r (or_introl eq_refl) st) as H1.
  destruct (r st) as [st1 p].
  pose proof (IH (fun r' Hin => Hall r' (or_intror Hin)) st1) as H2.
  destruct (settle rest st1) as [st2 ps]. simpl in *.
  exact (Htrans _ _ _ H1 H2).
Qed.

Section WithBackends.
Variables SongInfo ScrobblerSongInfo : Type.
Variable heap : Ref -> BaseScrobbler SongInfo ScrobblerSongInfo.
Variable registeredScrobblers : list Ref.

Lemma unbindArray_subset (s x : Ref) (bound : list Ref) :
  In x (unbindArray heap s bound) -> In x bound.
Proof.
  destruct (isScrobblerInArray heap s bound) eqn:E;
    [| now rewrite unbindArray_not_bound].
  destruct (in_dec Nat.eq_dec s bound) as [Hin | Hnot].
  - rewrite unbindArray_same_object by exact Hin.
    apply removeFirst_subset.
  - rewrite unbindArray_other_object by assumption.
    apply removelast_subset.
Qed.

Lemma processErrorResult_never_binds (scrobbler : option Ref)
  (result : Thrown) (st : State) :
  incl (boundScrobblers (fst (processErrorResult heap scrobbler result st)))
       (boundScrobblers st).
Proof.
  unfold processErrorResult.
  destruct result as [r | name message]; [| apply incl_refl].
  destruct (negb (is_ r ERROR_OTHER || is_ r ERROR_AUTH));
    [apply incl_refl |].
  destruct (is_ r ERROR_AUTH); [| apply incl_refl].
  destruct scrobbler as [s |]; [| apply incl_refl].
  unfold bind, await.
  destruct (isReadyForGrantAccess (heap s)) as [[|] | e]; simpl;
    try apply incl_refl.
  intros x. apply unbindArray_subset.
Qed.

Lemma caught_slot_never_binds (promise : Settled ApiCallResult) (s : Ref)
  (st : State) :
  incl (boundScrobblers
          (fst (catch promise
                  (fun result => processErrorResult heap (Some s) result)
                  st)))
       (boundScrobblers st).
Proof.
  destruct promise as [r | e]; simpl;
    [apply incl_refl | apply processErrorResult_never_binds].
Qed.

(** X7.  The bound array starts empty and changes through
    [bindScrobbler] and [unbindScrobbler] only; after any series of
    these calls, with any scrobblers, it holds no object twice and no
    two objects with the same ID. *)
Theorem bound_array_never_holds_an_id_twice (calls : list BindingCall) :
  uniqueIds heap (applyBindings heap calls [])
  /\ NoDup (applyBindings heap calls []).
Proof.
  assert (H : uniqueIds heap (applyBindings heap calls [])).
  { apply applyBindings_uniqueIds. constructor. }
  split; [exact H | exact (uniqueIds_NoDup _ _ heap _ H)].
Qed.

(** X8.  Unbinding a scrobbler right after binding it, when its ID was
    not bound before, gives back the array as it was. *)
Theorem unbind_undoes_fresh_bind (s : Ref) (bound : list Ref) :
  isScrobblerInArray heap s bound = false ->
  unbindArray heap s (bindArray heap s bound) = bound.
Proof.
  intros E.
  assert (Hnot : ~ In s bound).
  { intros Hin. apply (inArray_self _ _ heap) in Hin. congruence. }
  unfold bindArray. rewrite E. simpl.
  rewrite unbindArray_same_object by (apply in_or_app; right; now left).
  now apply removeFirst_append_fresh.
Qed.

(** X9.  Bind, unbind, bind again leaves the same IDs bound as a single
    bind, provided the scrobbler is the object held in the array or its
    ID is not bound at all. *)
Theorem bind_unbind_bind_same_ids (s x : Ref) (bound : list Ref) :
  In s bound \/ isScrobblerInArray heap s bound = false ->
  isScrobblerInArray heap x
    (bindArray heap s (unbindArray heap s (bindArray heap s bound)))
  = isScrobblerInArray heap x (bindArray heap s bound).
Proof.
  intros [Hin | Hfresh].
  - now apply bind_unbind_bind_member.
  - now rewrite bind_unbind_bind_fresh.
Qed.

Lemma find_by_key {B} (f : Ref -> B) (eqb : B -> B -> bool)
  (l : list Ref) (s : Ref) :
  (forall a b, eqb a b = true <-> a = b) ->
  NoDup (map f l) -> In s l ->
  find (fun x => eqb (f x) (f s)) l = Some s.
Proof.
  intros Heqb. induction l as [| y rest IH]; intros Hnd Hin;
    [destruct Hin |].
  inversion Hnd as [| ? ? Hfresh Hrest]; subst. simpl.
  destruct (eqb (f y) (f s)) eqn:E.
  - apply Heqb in E. destruct Hin as [-> | Hin]; [reflexivity |].
    exfalso. apply Hfresh. rewrite E. exact (in_map f _ _ Hin).
  - destruct Hin as [-> | Hin]; [| now apply IH].
    assert (Hrefl : eqb (f s) (f s) = true) by now apply Heqb.
    congruence.
Qed.

(** X10.  With distinct IDs among the registered scrobblers,
    [getScrobblerById] on the ID of a registered scrobbler gives that
    scrobbler back; and whatever it returns is registered and has the
    ID asked for. *)
Theorem getScrobblerById_finds_registered (s : Ref) :
  uniqueIds heap registeredScrobblers ->
  In s registeredScrobblers ->
  getScrobblerById heap registeredScrobblers (getId (heap s)) = Some s
  /\ forall id found,
       getScrobblerById heap registeredScrobblers id = Some found ->
       In found registeredScrobblers /\ getId (heap found) = id.
Proof.
  intros Huniq Hin. split.
  - unfold getScrobblerById.
    apply (find_by_key (fun x => getId (heap x)) String.eqb);
      [apply String.eqb_eq | exact Huniq | exact Hin].
  - intros id found Hfound. unfold getScrobblerById in Hfound.
    apply find_some in Hfound as [Hreg Hid].
    split; [exact Hreg | now apply String.eqb_eq].
Qed.

Lemma sendNowPlaying_calls (songInfo : SongInfo) (st : State) :
  exists checks,
    invoked (fst (sendNowPlaying heap songInfo st))
    = invoked st
        ++ map (fun s => (s, MSendNowPlaying)) (boundScrobblers st)
        ++ checks
    /\ onlyReadyChecks checks.
Proof.
  unfold sendNowPlaying. rewrite fst_aggregate.
  set (st1 := logCalls _ st).
  destruct (settle_calls onlyReadyChecks
              (map (fun s =>
                      catch (Backend.sendNowPlaying (heap s) songInfo)
                        (fun result =>
                           processErrorResult heap (Some s) result))
                 (boundScrobblers st)))
    with (st := st1) as (checks & Hcalls & Honly).
  - constructor.
  - apply onlyReadyChecks_app.
  - intros r Hin st0. apply in_map_iff in Hin as (s & <- & _).
    apply caught_slot_calls.
  - exists checks. split; [| exact Honly].
    rewrite Hcalls. subst st1. simpl. now rewrite app_assoc.
Qed.

(** X11.  [sendNowPlaying] and [toggleLove] never bind a scrobbler:
    whatever the scrobblers answer, every scrobbler bound afterwards
    was bound before. *)
Theorem dispatch_never_binds (songInfo : SongInfo)
  (loveStatus : LoveStatus) (st : State) :
  incl (boundScrobblers (fst (sendNowPlaying heap songInfo st)))
       (boundScrobblers st)
  /\ incl (boundScrobblers
             (fst (toggleLove heap registeredScrobblers songInfo
                     loveStatus st)))
          (boundScrobblers st).
Proof.
  split.
  - unfold sendNowPlaying. rewrite fst_aggregate.
    set (st1 := logCalls _ st).
    change (boundScrobblers st) with (boundScrobblers st1).
    apply (settle_relates
             (fun a b => incl (boundScrobblers b) (boundScrobblers a))).
    + intros a. apply incl_refl.
    + intros a b c Hab Hbc. exact (incl_tran Hbc Hab).
    + intros r Hin st0. apply in_map_iff in Hin as (s & <- & _).
      apply caught_slot_never_binds.
  - unfold toggleLove. rewrite fst_aggregate.
    set (st1 := logCalls _ st).
    change (boundScrobblers st) with (boundScrobblers st1).
    apply (settle_relates
             (fun a b => incl (boundScrobblers b) (boundScrobblers a))).
    + intros a. apply incl_refl.
    + intros a b c Hab Hbc. exact (incl_tran Hbc Hab).
    + intros r Hin st0. apply in_map_iff in Hin as (s & <- & _).
      apply caught_slot_never_binds.
Qed.

(** X12.  [sendNowPlaying] calls the scrobblers of the bound array,
    those and no others, each once and in the order of the array, also
    when handling the answer of one of them unbinds it. *)
Theorem sendNowPlaying_targets_are_bound (songInfo : SongInfo)
  (st : State) :
  receivers MSendNowPlaying
    (newCalls st (fst (sendNowPlaying heap songInfo st)))
  = boundScrobblers st.
Proof.
  destruct (sendNowPlaying_calls songInfo st) as (checks & Hcalls & Honly).
  rewrite (newCalls_app _ _ _ Hcalls), receivers_app.
  rewrite receivers_same by reflexivity.
  rewrite (receivers_ready_checks MSendNowPlaying checks) by easy.
  apply app_nil_r.
Qed.

(** X13.  When every bound scrobbler keeps to the contract, failing
    only with a classified error and answering the readiness question,
    [sendNowPlaying] is fulfilled with one entry for each bound
    scrobbler, in order: the result of a call that succeeded, the
    classified error of one that failed. *)
Theorem sendNowPlaying_one_entry_per_bound (songInfo : SongInfo)
  (st : State) :
  (forall s, In s (boundScrobblers st) ->
     keepsContract heap (Backend.sendNowPlaying (heap s) songInfo) s) ->
  exists results,
    snd (sendNowPlaying heap songInfo st) = Fulfilled results
    /\ List.length results = List.length (boundScrobblers st)
    /\ Forall2
         (fun s entry =>
            slotEntry (Backend.sendNowPlaying (heap s) songInfo) entry)
         (boundScrobblers st) results.
Proof.
  intros Hcontract.
  destruct (sendNowPlaying_collects _ _ heap songInfo st Hcontract)
    as (st' & results & Hrun & HF & Hlen).
  exists results. rewrite Hrun. auto.
Qed.

Lemma other_slot (promise : Settled ApiCallResult) (s : Ref) (st : State) :
  (forall e, promise = Rejected e -> isOtherError e = true) ->
  exists entry,
    catch promise (fun result => processErrorResult heap (Some s) result) st
    = (st, Fulfilled entry).
Proof.
  destruct promise as [r | e]; simpl; intros Hother.
  - now exists r.
  - specialize (Hother e eq_refl).
    destruct e as [r | name message]; [| discriminate].
    exists r. now apply ErrorResultFacts.processErrorResult_other.
Qed.

(** X14.  When the calls of [sendNowPlaying] fail with errors of kind
    other only, no scrobbler is unbound and none is asked whether it is
    ready for grant access: the state after is the state before plus
    the calls of [sendNowPlaying] themselves, and the aggregate is
    fulfilled with one entry for each bound scrobbler. *)
Theorem sendNowPlaying_other_errors_keep_bound (songInfo : SongInfo)
  (st : State) :
  (forall s e, In s (boundScrobblers st) ->
     Backend.sendNowPlaying (heap s) songInfo = Rejected e ->
     isOtherError e = true) ->
  fst (sendNowPlaying heap songInfo st)
  = logCalls (map (fun s => (s, MSendNowPlaying)) (boundScrobblers st)) st
  /\ exists results,
       snd (sendNowPlaying heap songInfo st) = Fulfilled results
       /\ List.length results = List.length (boundScrobblers st).
Proof.
  intros Hother. unfold sendNowPlaying.
  set (st1 := logCalls _ st).
  set (slot := fun s =>
         catch (Backend.sendNowPlaying (heap s) songInfo)
           (fun result => processErrorResult heap (Some s) result)).
  assert (Hslot : forall s, In s (boundScrobblers st) -> forall st0,
            exists entry, slot s st0 = (st0, Fulfilled entry)).
  { intros s Hin st0. apply other_slot. intros e. now apply Hother. }
  assert (Hstate : fst (settle (map slot (boundScrobblers st)) st1) = st1).
  { apply (settle_relates (fun a b => b = a)).
    - reflexivity.
    - intros a b c -> ->. reflexivity.
    - intros r Hin st0. apply in_map_iff in Hin as (s & <- & Hs).
      destruct (Hslot s Hs st0) as [entry ->]. reflexivity. }
  destruct (settle_fulfilled slot (fun _ _ => True) (boundScrobblers st))
    with (st := st1) as (st2 & results & Hsettle & HF).
  { intros s Hin st0. destruct (Hslot s Hin st0) as [entry ->].
    now exists st0, entry. }
  rewrite Hsettle in *. simpl in Hstate. subst st2.
  rewrite Promise_all_fulfilled. split; [reflexivity |].
  exists results. split; [reflexivity |].
  symmetry. exact (Forall2_length HF).
Qed.

(** X15.  [scrobble] hands the promises of the bound scrobblers to
    [Promise.all] as they are: it calls [scrobble] on each bound
    scrobbler and nothing else, leaves the bound array alone whatever
    the answers, and is fulfilled exactly when every one of the
    promises is, with their values in the order of the array. *)
Theorem scrobble_forwards_raw_promises (songInfo : SongInfo) (st : State) :
  let run := scrobble heap songInfo st in
  boundScrobblers (fst run) = boundScrobblers st
  /\ newCalls st (fst run)
     = map (fun s => (s, MScrobble)) (boundScrobblers st)
  /\ forall values,
       snd run = Fulfilled values
       <-> map (fun s => Backend.scrobble (heap s) songInfo)
             (boundScrobblers st)
           = map Fulfilled values.
Proof.
  cbv zeta. rewrite scrobble_forwards. simpl.
  split; [reflexivity |]. split.
  - now apply newCalls_app.
  - intros values. apply Promise_all_fulfilled_iff.
Qed.

Lemma getScrobblerById_known (scrobblerId : string) :
  In scrobblerId (map (fun s => getId (heap s)) registeredScrobblers) ->
  exists s,
    getScrobblerById heap registeredScrobblers scrobblerId = Some s
    /\ In s registeredScrobblers /\ getId (heap s) = scrobblerId.
Proof.
  intros Hknown. unfold getScrobblerById.
  destruct (find _ registeredScrobblers) as [s |] eqn:E.
  - apply find_some in E as [Hin Hid]. exists s.
    repeat split; [exact Hin | now apply String.eqb_eq].
  - apply in_map_iff in Hknown as (s & Hid & Hin).
    pose proof (find_none _ _ E s Hin) as Hno. simpl in Hno.
    apply String.eqb_neq in Hno. contradiction.
Qed.

Lemma nonNull_all (targets : list Ref) : nonNull (map Some targets) = targets.
Proof.
  unfold nonNull.
  induction targets as [| s rest IH]; simpl; [reflexivity | now rewrite IH].
Qed.

(** X16.  [scrobbleWithScrobblers] on IDs that are all registered calls
    [scrobble] on the scrobbler found for each ID, in the order of the
    IDs and once for each occurrence, whether or not that scrobbler is
    bound; the bound array is read by nothing and left alone. *)
Theorem scrobbleWithScrobblers_targets_by_id (songInfo : SongInfo)
  (scrobblerIds : list string) (st : State) :
  (forall id, In id scrobblerIds ->
     In id (map (fun s => getId (heap s)) registeredScrobblers)) ->
  let run :=
    scrobbleWithScrobblers heap registeredScrobblers songInfo
      scrobblerIds st in
  exists targets,
    Forall2
      (fun id s => In s registeredScrobblers /\ getId (heap s) = id)
      scrobblerIds targets
    /\ receivers MScrobble (newCalls st (fst run)) = targets
    /\ boundScrobblers (fst run) = boundScrobblers st.
Proof.
  intros Hknown. cbv zeta.
  assert (Htargets : exists targets,
            map (getScrobblerById heap registeredScrobblers) scrobblerIds
            = map Some targets
            /\ Forall2
                 (fun id s =>
                    In s registeredScrobblers /\ getId (heap s) = id)
                 scrobblerIds targets).
  { induction scrobblerIds as [| id rest IH].
    - exists []. split; [reflexivity | constructor].
    - destruct (getScrobblerById_known id (Hknown id (or_introl eq_refl)))
        as (s & Hfound & Hreg & Hid).
      destruct (IH (fun i Hi => Hknown i (or_intror Hi)))
        as (targets & Hmap & HF).
      exists (s :: targets). simpl. rewrite Hfound, Hmap.
      split; [reflexivity | now constructor]. }
  destruct Htargets as (targets & Hmap & HF).
  exists targets. split; [exact HF |].
  unfold scrobbleWithScrobblers.
  rewrite sendScrobbleRequest_forwards, Hmap. simpl.
  split; [| reflexivity].
  rewrite (newCalls_app st _ (scrobbleCalls (map Some targets)))
    by reflexivity.
  now rewrite scrobbleCalls_receivers, nonNull_all.
Qed.

(** X17.  When every registered scrobbler that can love a song keeps to
    the contract, [toggleLove] is fulfilled with one entry for each of
    them, in the order of registration: the result of a call that
    succeeded, the classified error of one that failed. *)
Theorem toggleLove_one_entry_per_target (songInfo : SongInfo)
  (loveStatus : LoveStatus) (st : State) :
  let targets :=
    filter (fun s => canLoveSong (heap s)) registeredScrobblers in
  (forall s, In s targets ->
     keepsContract heap (Backend.toggleLove (heap s) songInfo loveStatus)
       s) ->
  exists results,
    snd (toggleLove heap registeredScrobblers songInfo loveStatus st)
    = Fulfilled results
    /\ List.length results = List.length targets
    /\ Forall2
         (fun s entry =>
            slotEntry (Backend.toggleLove (heap s) songInfo loveStatus)
              entry)
         targets results.
Proof.
  intros targets Hcontract. unfold toggleLove. fold targets.
  set (st1 := logCalls _ st).
  destruct (settle_fulfilled
              (fun s =>
                 catch (Backend.toggleLove (heap s) songInfo loveStatus)
                   (fun result => processErrorResult heap (Some s) result))
              (fun s entry =>
                 slotEntry (Backend.toggleLove (heap s) songInfo loveStatus)
                   entry)
              targets
              (fun s Hin st0 =>
                 caught_slot _ _ heap _ s st0 (Hcontract s Hin))
              st1)
    as (st2 & results & Hsettle & HF).
  rewrite Hsettle, Promise_all_fulfilled.
  exists results. repeat split; [| exact HF].
  symmetry. exact (Forall2_length HF).
Qed.

(** X18.  An auth error whose readiness question cannot be asked or
    answered.  With null in place of the scrobbler, on any heap,
    [processErrorResult] is rejected with a [TypeError] before anything
    is called and leaves the state as it was.  With a scrobbler whose
    [isReadyForGrantAccess] is rejected, it is rejected with the same
    reason after that one call and unbinds nothing. *)
Theorem processErrorResult_readiness_unknown (r : ApiCallResult)
  (st : State) :
  is_ r ERROR_AUTH = true ->
  (exists message,
     processErrorResult heap None (ThrownResult r) st
     = (st, Rejected (ThrownError "TypeError" message)))
  /\ forall s e,
       isReadyForGrantAccess (heap s) = Rejected e ->
       processErrorResult heap (Some s) (ThrownResult r) st
       = (logCalls [(s, MIsReadyForGrantAccess)] st, Rejected e).
Proof.
  intros Hauth. unfold processErrorResult.
  rewrite Hauth, (ErrorResultFacts.auth_is_not_other r Hauth). simpl.
  split; [eexists; reflexivity |].
  intros s e Hready. unfold bind, await. now rewrite Hready.
Qed.

Lemma bindAll_settled (l : list Ref) (st : State) :
  (forall s, In s l -> isFulfilled (getSession (heap s)) = true ->
     isScrobblerInArray heap s (boundScrobblers st) = true) ->
  boundScrobblers (fold_left (fun acc s => bindOne heap s acc) l st)
  = boundScrobblers st.
Proof.
  revert st. induction l as [| s rest IH]; intros st Hall; simpl;
    [reflexivity |].
  assert (Hstep : boundScrobblers (bindOne heap s st) = boundScrobblers st).
  { rewrite bindOne_bound.
    destruct (isFulfilled (getSession (heap s))) eqn:Hs; [| reflexivity].
    unfold bindArray. now rewrite (Hall s (or_introl eq_refl) Hs). }
  rewrite IH; [exact Hstep |].
  intros x Hin Hx. rewrite Hstep. apply Hall; [now right | exact Hx].
Qed.

(** X19.  Running [bindAllScrobblers] a second time, while the sessions
    answer as they did, binds nothing more: the bound array after two
    runs is the bound array after one. *)
Theorem bindAllScrobblers_twice (st : State) :
  let once := fst (bindAllScrobblers heap registeredScrobblers st) in
  boundScrobblers
    (fst (bindAllScrobblers heap registeredScrobblers once))
  = boundScrobblers once.
Proof.
  unfold bindAllScrobblers. simpl.
  apply bindAll_settled. intros s Hin Hs.
  now apply bindAll_binds.
Qed.

Lemma bindAll_appends (l : list Ref) (st : State) :
  uniqueIds heap (boundScrobblers st ++ l) ->
  boundScrobblers (fold_left (fun acc s => bindOne heap s acc) l st)
  = boundScrobblers st
      ++ filter (fun s => isFulfilled (getSession (heap s))) l.
Proof.
  unfold uniqueIds. revert st.
  induction l as [| s rest IH]; intros st Huniq; simpl.
  - now rewrite app_nil_r.
  - assert (Hfresh : isScrobblerInArray heap s (boundScrobblers st) = false).
    { apply inArray_false_iff. intros Hin.
      rewrite map_app in Huniq. simpl in Huniq.
      apply NoDup_remove_2 in Huniq. apply Huniq.
      apply in_or_app. now left. }
    destruct (isFulfilled (getSession (heap s))) eqn:Hs.
    + rewrite IH.
      * rewrite bindOne_bound, Hs. unfold bindArray. rewrite Hfresh.
        simpl. now rewrite <- app_assoc.
      * rewrite bindOne_bound, Hs. unfold bindArray. rewrite Hfresh.
        simpl. now rewrite <- app_assoc.
    + rewrite IH.
      * now rewrite bindOne_bound, Hs.
      * rewrite bindOne_bound, Hs.
        rewrite map_app in *. simpl in Huniq.
        now apply NoDup_remove_1 in Huniq.
Qed.

(** X20.  At start-up, with nothing bound yet and distinct IDs among
    the registered scrobblers, [bindAllScrobblers] returns exactly the
    registered scrobblers whose [getSession] succeeded, in the order of
    registration. *)
Theorem bindAllScrobblers_from_empty (st : State) :
  boundScrobblers st = [] ->
  uniqueIds heap registeredScrobblers ->
  snd (bindAllScrobblers heap registeredScrobblers st)
  = Fulfilled
      (filter (fun s => isFulfilled (getSession (heap s)))
         registeredScrobblers).
Proof.
  intros Hempty Huniq. unfold bindAllScrobblers. simpl.
  rewrite bindAll_appends by (rewrite Hempty; exact Huniq).
  now rewrite Hempty.
Qed.

Lemma processErrorResult_uniqueIds (scrobbler : option Ref)
  (result : Thrown) (st : State) :
  uniqueIds heap (boundScrobblers st) ->
  uniqueIds heap
    (boundScrobblers (fst (processErrorResult heap scrobbler result st))).
Proof.
  intros Huniq. unfold processErrorResult.
  destruct result as [r | name message]; [| exact Huniq].
  destruct (negb (is_ r ERROR_OTHER || is_ r ERROR_AUTH)); [exact Huniq |].
  destruct (is_ r ERROR_AUTH); [| exact Huniq].
  destruct scrobbler as [s |]; [| exact Huniq].
  unfold bind, await.
  destruct (isReadyForGrantAccess (heap s)) as [[|] | e]; simpl;
    try exact Huniq.
  now apply unbindArray_uniqueIds.
Qed.

Lemma caught_slots_uniqueIds (promises : Ref -> Settled ApiCallResult)
  (targets : list Ref) (st : State) :
  uniqueIds heap (boundScrobblers st) ->
  uniqueIds heap
    (boundScrobblers
       (fst (settle
               (map (fun s =>
                       catch (promises s)
                         (fun result =>
                            processErrorResult heap (Some s) result))
                  targets)
               st))).
Proof.
  apply (settle_relates
           (fun a b =>
              uniqueIds heap (boundScrobblers a) ->
              uniqueIds heap (boundScrobblers b))).
  - auto.
  - auto.
  - intros r Hin st0 Huniq. apply in_map_iff in Hin as (s & <- & _).
    destruct (promises s) as [v | e]; simpl; [exact Huniq |].
    now apply processErrorResult_uniqueIds.
Qed.

(** X26.  The operations of the manager keep the IDs in the bound array
    distinct: if no two bound scrobblers share an ID before
    [bindAllScrobblers], [sendNowPlaying], [scrobble] or [toggleLove],
    none do after, whatever the scrobblers answer. *)
Theorem manager_keeps_ids_distinct (songInfo : SongInfo)
  (loveStatus : LoveStatus) (st : State) :
  uniqueIds heap (boundScrobblers st) ->
  uniqueIds heap
    (boundScrobblers (fst (bindAllScrobblers heap registeredScrobblers st)))
  /\ uniqueIds heap
       (boundScrobblers (fst (sendNowPlaying heap songInfo st)))
  /\ uniqueIds heap (boundScrobblers (fst (scrobble heap songInfo st)))
  /\ uniqueIds heap
       (boundScrobblers
          (fst (toggleLove heap registeredScrobblers songInfo loveStatus
                  st))).
Proof.
  intros Huniq. split; [| split; [| split]].
  - unfold bindAllScrobblers. simpl. now apply bindAll_uniqueIds.
  - unfold sendNowPlaying. rewrite fst_aggregate.
    now apply (caught_slots_uniqueIds
                 (fun s => Backend.sendNowPlaying (heap s) songInfo)).
  - rewrite scrobble_forwards. exact Huniq.
  - unfold toggleLove. rewrite fst_aggregate.
    now apply (caught_slots_uniqueIds
                 (fun s => Backend.toggleLove (heap s) songInfo loveStatus)).
Qed.

End WithBackends.

End ManagerMore.

(* ================================================================== *)
(** ** Start-up and messages                                           *)
(* ================================================================== *)

Module BackgroundFacts.
Import Api Backend Manager Background BoundFacts DispatchFacts.

Section WithBackends.
Variables SongInfo ScrobblerSongInfo UserProperties : Type.
Variable heap : Ref -> BaseScrobbler SongInfo ScrobblerSongInfo.
Variable accounts : Ref -> ScrobblerAccount UserProperties.
Variable registeredScrobblers : list Ref.
Variable extVersion : string.
Variable tabWorkerProcessMessage :
  Z -> Request -> option (MessageData UserProperties) -> World ->
  World * Settled Reply.
Variable tabWorkerGetActiveTabId : World -> World * Settled Reply.

(** [processMessage] with the tab worker at hand. *)
Local Abbreviation handle :=
  (processMessage heap accounts registeredScrobblers
     tabWorkerProcessMessage tabWorkerGetActiveTabId).

Lemma bindScrobbler_keeps (s x : Ref) (m : State) :
  In x (boundScrobblers m) ->
  In x (boundScrobblers (bindScrobbler heap s m)).
Proof. apply bindArray_keeps. Qed.

(** X21.  A message without tab ID whose scrobbler ID is missing or is
    the ID of no registered scrobbler is dropped: whatever its type,
    other than the request for the active tab, [processMessage]
    resolves to undefined and changes nothing. *)
Theorem processMessage_unknown_scrobbler (tabId : option Z)
  (type : Request) (d : MessageData UserProperties) (w : World) :
  truthy tabId = false ->
  type <> GetActiveTabId ->
  (forall id, scrobblerId d = Some id ->
     ~ In id (map (fun s => getId (heap s)) registeredScrobblers)) ->
  handle tabId type (Some d) w
  = (w, Fulfilled ReplyUndefined).
Proof.
  intros Htab Htype Hunknown. unfold processMessage. rewrite Htab.
  assert (Hnull :
    match scrobblerId d with
    | Some id => getScrobblerById heap registeredScrobblers id
    | None => None
    end = None).
  { destruct (scrobblerId d) as [id |]; [| reflexivity].
    apply getScrobblerById_unknown. now apply Hunknown. }
  rewrite Hnull. destruct type; try reflexivity. contradiction.
Qed.

(** X22.  A sign-in request for a registered scrobbler never fails the
    message.  When the scrobbler gives an auth URL, the scrobbler is
    bound at once, before any session exists, and the URL is opened in
    a tab; when it gives none, the manager is left as it was and the
    sign-in error is shown. *)
Theorem processMessage_sign_in (tabId : option Z)
  (d : MessageData UserProperties) (id : string) (s : Ref) (w : World) :
  truthy tabId = false ->
  scrobblerId d = Some id ->
  getScrobblerById heap registeredScrobblers id = Some s ->
  let run :=
    handle tabId SignIn
      (Some d) w in
  snd run = Fulfilled ReplyUndefined
  /\ match getAuthUrl (accounts s) with
     | Fulfilled authUrl =>
         isScrobblerInArray heap s (boundScrobblers (manager (fst run)))
         = true
         /\ effects (fst run)
            = effects w ++ [CallGetAuthUrl s; CreateTab authUrl]
     | Rejected _ =>
         manager (fst run) = manager w
         /\ effects (fst run)
            = effects w ++ [CallGetAuthUrl s; ShowSignInError s]
     end.
Proof.
  intros Htab Hid Hfound. unfold processMessage.
  rewrite Htab, Hid, Hfound. cbv zeta. simpl.
  split; [reflexivity |]. unfold authenticateScrobbler.
  destruct (getAuthUrl (accounts s)) as [authUrl | e]; simpl.
  - split; [apply bindArray_bound | now rewrite <- app_assoc].
  - split; [reflexivity | now rewrite <- app_assoc].
Qed.


(** X24.  A sign-out request for a registered scrobbler calls
    [signOut] on it and leaves the manager alone: a scrobbler that was
    bound is still bound.  The message resolves to undefined when
    [signOut] succeeds and is rejected with its reason when it fails. *)
Theorem processMessage_sign_out (tabId : option Z)
  (d : MessageData UserProperties) (id : string) (s : Ref) (w : World) :
  truthy tabId = false ->
  scrobblerId d = Some id ->
  getScrobblerById heap registeredScrobblers id = Some s ->
  let run :=
    handle tabId SignOut
      (Some d) w in
  manager (fst run) = manager w
  /\ effects (fst run) = effects w ++ [CallSignOut s]
  /\ snd run
     = match signOut (accounts s) with
       | Fulfilled _ => Fulfilled ReplyUndefined
       | Rejected e => Rejected e
       end.
Proof.
  intros Htab Hid Hfound. unfold processMessage.
  rewrite Htab, Hid, Hfound. cbv zeta.
  now destruct (signOut (accounts s)).
Qed.

(** X25.  A request to apply user properties binds the scrobbler once
    the scrobbler has taken the properties; when the scrobbler refuses
    them the message is rejected with its reason and the manager is
    left as it was. *)
Theorem processMessage_apply_user_properties (tabId : option Z)
  (d : MessageData UserProperties) (id : string) (s : Ref) (w : World) :
  truthy tabId = false ->
  scrobblerId d = Some id ->
  getScrobblerById heap registeredScrobblers id = Some s ->
  let run :=
    handle tabId
      ApplyUserProperties (Some d) w in
  effects (fst run) = effects w ++ [CallApplyUserProperties s]
  /\ match applyUserProperties (accounts s) (userProps d) with
     | Fulfilled _ =>
         snd run = Fulfilled ReplyUndefined
         /\ isScrobblerInArray heap s (boundScrobblers (manager (fst run)))
            = true
     | Rejected e =>
         snd run = Rejected e /\ manager (fst run) = manager w
     end.
Proof.
  intros Htab Hid Hfound. unfold processMessage.
  rewrite Htab, Hid, Hfound. cbv zeta. unfold applyProperties.
  destruct (applyUserProperties (accounts s) (userProps d)); simpl;
    repeat split. apply bindArray_bound.
Qed.

(** Routing.  A message with a tab ID is handed to the tab worker with
    its type and data, and so is a request for the active tab without
    one; what comes back is what the tab worker gives.  Any other
    message without tab ID and without data is rejected with a
    [TypeError], and nothing changes. *)
Lemma processMessage_routing (tabId : option Z) (type : Request)
  (data : option (MessageData UserProperties)) (w : World) :
  (forall n, tabId = Some n -> n <> 0 ->
     handle tabId type data w = tabWorkerProcessMessage n type data w)
  /\ (truthy tabId = false ->
      handle tabId GetActiveTabId data w = tabWorkerGetActiveTabId w)
  /\ (truthy tabId = false -> type <> GetActiveTabId ->
      exists message,
        handle tabId type None w
        = (w, Rejected (ThrownError "TypeError" message))).
Proof.
  unfold processMessage. split; [| split].
  - intros n -> Hn. simpl.
    destruct (Z.eqb_spec n 0); [contradiction | reflexivity].
  - intros ->. reflexivity.
  - intros -> Htype. destruct type; try contradiction; eexists;
      reflexivity.
Qed.

Lemma start_run (supported : bool) (w : World) :
  start heap registeredScrobblers extVersion supported w
  = (let m := fst (bindAllScrobblers heap registeredScrobblers
                     (manager w)) in
     mkWorld m
       (if (0 <? List.length (boundScrobblers m))%nat
        then notifications w
        else Ext.showAuthNotification supported (notifications w))
       (mkCore (Some extVersion)) (effects w),
     Fulfilled tt).
Proof.
  unfold start, bindScrobblers, updateVersionInStorage, bindAllScrobblers.
  simpl.
  now destruct (0 <? List.length _)%nat.
Qed.

(** X27.  [start] always resolves and always records the version of
    the extension in the core storage, whether or not any scrobbler has
    a session.  When at least one registered scrobbler has a session,
    that scrobbler is bound, no auth notification is shown and the
    display count is left as it was. *)
Theorem start_with_a_session (supported : bool) (w : World) :
  let run := start heap registeredScrobblers extVersion supported w in
  snd run = Fulfilled tt
  /\ appVersion (core (fst run)) = Some extVersion
  /\ forall s,
       In s registeredScrobblers ->
       isFulfilled (getSession (heap s)) = true ->
       notifications (fst run) = notifications w
       /\ isScrobblerInArray heap s (boundScrobblers (manager (fst run)))
          = true.
Proof.
  cbv zeta. rewrite start_run. simpl.
  split; [reflexivity |]. split; [reflexivity |].
  intros s Hin Hok.
  pose proof (bindAll_binds _ _ heap registeredScrobblers (manager w) s
                Hin Hok) as Hbound.
  split; [| exact Hbound].
  destruct (boundScrobblers
              (fold_left (fun acc s0 => bindOne heap s0 acc)
                 registeredScrobblers (manager w))) as [| x rest];
    [discriminate | reflexivity].
Qed.

Lemma no_session_no_binding (m : State) :
  (forall s, In s registeredScrobblers ->
     isFulfilled (getSession (heap s)) = false) ->
  boundScrobblers (fst (bindAllScrobblers heap registeredScrobblers m))
  = boundScrobblers m.
Proof.
  intros Hnone. unfold bindAllScrobblers. simpl.
  apply ManagerMore.bindAll_settled. intros s Hin Hok.
  rewrite (Hnone s Hin) in Hok. discriminate.
Qed.

(** X28.  When nothing is bound and no registered scrobbler has a
    session, [start] binds nothing and goes through
    [showAuthNotification]: the user is notified when the display count
    allows it, and the count goes up by one then. *)
Theorem start_without_session (supported : bool) (w : World) :
  boundScrobblers (manager w) = [] ->
  (forall s, In s registeredScrobblers ->
     isFulfilled (getSession (heap s)) = false) ->
  let run := start heap registeredScrobblers extVersion supported w in
  boundScrobblers (manager (fst run)) = []
  /\ notifications (fst run)
     = Ext.showAuthNotification supported (notifications w).
Proof.
  intros Hempty Hnone. cbv zeta. rewrite start_run. simpl.
  pose proof (no_session_no_binding (manager w) Hnone) as Hsame.
  unfold bindAllScrobblers in Hsame. simpl in Hsame.
  rewrite Hsame, Hempty. split; reflexivity.
Qed.

Lemma run_without_session (supported : bool) (w : World) :
  (forall s, In s registeredScrobblers ->
     isFulfilled (getSession (heap s)) = false) ->
  notifications (run heap registeredScrobblers extVersion supported w)
  = Ext.showAuthNotification supported (notifications w).
Proof.
  intros Hnone. unfold run. rewrite start_run. simpl.
  pose proof (no_session_no_binding (mkState [] []) Hnone) as Hsame.
  unfold bindAllScrobblers in Hsame. simpl in Hsame.
  now rewrite Hsame.
Qed.

(** X29.  Over any number of runs of the extension in which no
    registered scrobbler ever has a session, the stored count carries
    over from run to run: the notification storage after the runs is
    that of as many calls of [showAuthNotification], and from a fresh
    installation the user is notified in the first three runs and in no
    later one. *)
Theorem runs_without_session (calls : list bool) (w : World) :
  (forall s, In s registeredScrobblers ->
     isFulfilled (getSession (heap s)) = false) ->
  notifications (runs heap registeredScrobblers extVersion calls w)
  = Ext.lifetime calls (notifications w)
  /\ (notifications w = Ext.fresh ->
      List.length
        (Ext.displayed
           (notifications
              (runs heap registeredScrobblers extVersion calls w)))
      = Nat.min (List.length calls) 3).
Proof.
  intros Hnone.
  assert (Hruns : forall w0,
    notifications (runs heap registeredScrobblers extVersion calls w0)
    = Ext.lifetime calls (notifications w0)).
  { unfold runs, Ext.lifetime.
    induction calls as [| c rest IH]; intros w0; simpl; [reflexivity |].
    now rewrite IH, run_without_session. }
  split; [apply Hruns |].
  intros Hfresh. rewrite Hruns, Hfresh, ExtFacts.lifetime_displays.
  reflexivity.
Qed.

End WithBackends.

End BackgroundFacts.

(* ================================================================== *)
(** ** More instances                                                  *)
(* ================================================================== *)

Module MoreWitnesses.
Import Api Backend Manager.

Lemma sample_object_wellFormed :
  JsObject.wellFormed [("authDisplayCount", 2); ("version", 7)].
Proof.
  unfold JsObject.wellFormed. simpl.
  repeat constructor; simpl; intuition discriminate.
Qed.

Lemma stub_set_then_get_witness :
  JsObject.lookup "changelog"
    (StorageAreaStub.get
       (StorageAreaStub.set [("authDisplayCount", 2); ("version", 7)]
          [("changelog", 1); ("authDisplayCount", 1)]))
  = Some 1
  /\ JsObject.lookup "authDisplayCount"
       (StorageAreaStub.get
          (StorageAreaStub.set [("authDisplayCount", 2); ("version", 7)]
             [("changelog", 1); ("authDisplayCount", 1)]))
     = Some 2.
Proof.
  split.
  - exact (StorageFacts.stub_set_then_get
             [("authDisplayCount", 2); ("version", 7)]
             [("changelog", 1); ("authDisplayCount", 1)] "changelog"
             sample_object_wellFormed).
  - exact (StorageFacts.stub_set_then_get
             [("authDisplayCount", 2); ("version", 7)]
             [("changelog", 1); ("authDisplayCount", 1)]
             "authDisplayCount" sample_object_wellFormed).
Defined.

Lemma stub_set_twice_witness :
  StorageAreaStub.set [("authDisplayCount", 2); ("version", 7)]
    (StorageAreaStub.set [("authDisplayCount", 2); ("version", 7)]
       [("changelog", 1); ("authDisplayCount", 1)])
  = StorageAreaStub.set [("authDisplayCount", 2); ("version", 7)]
      [("changelog", 1); ("authDisplayCount", 1)].
Proof.
  exact (StorageFacts.stub_set_twice
           [("authDisplayCount", 2); ("version", 7)]
           [("changelog", 1); ("authDisplayCount", 1)]
           sample_object_wellFormed).
Defined.

Lemma storage_area_choice_witness :
  BrowserStorage.getScrobblerStorage "LastFM"
  = BrowserStorage.mkWrapper BrowserStorage.LocalArea "LastFM"
  /\ BrowserStorage.getStorage true "LastFM"
     = inl "Unknown storage namespace: LastFM"
  /\ (BrowserStorage.storageArea
        (BrowserStorage.mkWrapper BrowserStorage.SyncArea
           BrowserStorage.NOTIFICATIONS)
      = BrowserStorage.SyncArea
      <-> true = true
          /\ In BrowserStorage.NOTIFICATIONS
               [BrowserStorage.CONNECTORS_OPTIONS;
                BrowserStorage.CUSTOM_PATTERNS;
                BrowserStorage.NOTIFICATIONS; BrowserStorage.OPTIONS]).
Proof.
  split; [exact (proj1 (StorageFacts.storage_area_choice true "LastFM")) |].
  split; [reflexivity |].
  exact (proj2 (StorageFacts.storage_area_choice true
                  BrowserStorage.NOTIFICATIONS)
               (BrowserStorage.mkWrapper BrowserStorage.SyncArea
                  BrowserStorage.NOTIFICATIONS)
               eq_refl).
Defined.

Lemma unbind_undoes_fresh_bind_witness :
  isScrobblerInArray Sample.heap 2%nat [0; 1]%nat = false
  /\ unbindArray Sample.heap 2%nat (bindArray Sample.heap 2%nat [0; 1]%nat)
     = [0; 1]%nat.
Proof.
  split; [reflexivity |].
  exact (ManagerMore.unbind_undoes_fresh_bind unit string Sample.heap
           2%nat [0; 1]%nat eq_refl).
Defined.

Lemma bind_unbind_bind_same_ids_witness :
  In 0%nat [0; 1]%nat
  /\ isScrobblerInArray Sample.heap 1%nat
       (bindArray Sample.heap 0%nat
          (unbindArray Sample.heap 0%nat
             (bindArray Sample.heap 0%nat [0; 1]%nat)))
     = isScrobblerInArray Sample.heap 1%nat
         (bindArray Sample.heap 0%nat [0; 1]%nat).
Proof.
  assert (Hin : In 0%nat [0; 1]%nat) by (simpl; auto).
  split; [exact Hin |].
  exact (ManagerMore.bind_unbind_bind_same_ids unit string Sample.heap
           0%nat 1%nat [0; 1]%nat (or_introl Hin)).
Defined.

Lemma getScrobblerById_finds_registered_witness :
  In 1%nat Sample.registeredScrobblers
  /\ getScrobblerById Sample.heap Sample.registeredScrobblers
       (getId (Sample.heap 1%nat))
     = Some 1%nat.
Proof.
  assert (Hin : In 1%nat Sample.registeredScrobblers) by (simpl; auto).
  split; [exact Hin |].
  exact (proj1 (ManagerMore.getScrobblerById_finds_registered unit string
                  Sample.heap Sample.registeredScrobblers 1%nat
                  SampleFacts.sample_uniqueIds Hin)).
Defined.

Lemma sample_keeps_contract :
  forall s, In s (boundScrobblers Sample.allBound) ->
    keepsContract Sample.heap (Backend.sendNowPlaying (Sample.heap s) tt) s.
Proof.
  intros s [<- | [<- | [<- | []]]]; simpl; auto.
Qed.

Lemma sendNowPlaying_one_entry_per_bound_witness :
  exists results,
    snd (sendNowPlaying Sample.heap tt Sample.allBound) = Fulfilled results
    /\ List.length results = 3%nat.
Proof.
  destruct (ManagerMore.sendNowPlaying_one_entry_per_bound unit string
              Sample.heap tt Sample.allBound sample_keeps_contract)
    as (results & Hrun & Hlen & _).
  exists results. split; [exact Hrun | exact Hlen].
Defined.

Lemma offline_only_other_errors :
  forall s e, In s (boundScrobblers Sample.allBound) ->
    Backend.sendNowPlaying (SampleWorld.offline s) tt = Rejected e ->
    isOtherError e = true.
Proof.
  intros s e [<- | [<- | [<- | []]]]; simpl; intros [= <-]; reflexivity.
Qed.

Lemma sendNowPlaying_other_errors_keep_bound_witness :
  boundScrobblers
    (fst (sendNowPlaying SampleWorld.offline tt Sample.allBound))
  = [0; 1; 2]%nat.
Proof.
  rewrite (proj1 (ManagerMore.sendNowPlaying_other_errors_keep_bound
                    unit string SampleWorld.offline tt Sample.allBound
                    offline_only_other_errors)).
  reflexivity.
Defined.

Lemma sample_ids_known :
  forall id, In id ["librefm"; "lastfm"] ->
    In id (map (fun s => getId (Sample.heap s)) Sample.registeredScrobblers).
Proof.
  intros id [<- | [<- | []]]; simpl; auto.
Qed.

Lemma scrobbleWithScrobblers_targets_by_id_witness :
  exists targets,
    receivers MScrobble
      (newCalls Sample.noneBound
         (fst (scrobbleWithScrobblers Sample.heap
                 Sample.registeredScrobblers tt ["librefm"; "lastfm"]
                 Sample.noneBound)))
    = targets
    /\ List.length targets = 2%nat.
Proof.
  destruct (ManagerMore.scrobbleWithScrobblers_targets_by_id unit string
              Sample.heap Sample.registeredScrobblers tt
              ["librefm"; "lastfm"] Sample.noneBound sample_ids_known)
    as (targets & HF & Hcalls & _).
  exists targets. split; [exact Hcalls |].
  symmetry. exact (Forall2_length HF).
Defined.

Lemma sample_love_contract :
  forall s,
    In s (filter (fun s => canLoveSong (Sample.heap s))
            Sample.registeredScrobblers) ->
    keepsContract Sample.heap (Backend.toggleLove (Sample.heap s) tt Loved) s.
Proof.
  intros s [<- | [<- | []]]; simpl; auto.
Qed.

Lemma toggleLove_one_entry_per_target_witness :
  exists results,
    snd (toggleLove Sample.heap Sample.registeredScrobblers tt Loved
           Sample.noneBound)
    = Fulfilled results
    /\ List.length results = 2%nat.
Proof.
  destruct (ManagerMore.toggleLove_one_entry_per_target unit string
              Sample.heap Sample.registeredScrobblers tt Loved
              Sample.noneBound sample_love_contract)
    as (results & Hrun & Hlen & _).
  exists results. split; [exact Hrun | exact Hlen].
Defined.

Lemma processErrorResult_readiness_unknown_witness :
  is_ (Sample.authError "librefm") ERROR_AUTH = true
  /\ (exists message,
        processErrorResult Sample.heap None
          (ThrownResult (Sample.authError "librefm")) Sample.allBound
        = (Sample.allBound, Rejected (ThrownError "TypeError" message)))
  /\ processErrorResult SampleWorld.offline (Some 1%nat)
       (ThrownResult (Sample.authError "librefm")) Sample.allBound
     = (logCalls [(1%nat, MIsReadyForGrantAccess)] Sample.allBound,
        Rejected (ThrownError "Error" "offline")).
Proof.
  split; [reflexivity |]. split.
  - exact (proj1 (ManagerMore.processErrorResult_readiness_unknown
                    unit string Sample.heap (Sample.authError "librefm")
                    Sample.allBound eq_refl)).
  - exact (proj2 (ManagerMore.processErrorResult_readiness_unknown
                    unit string SampleWorld.offline
                    (Sample.authError "librefm") Sample.allBound eq_refl)
                 1%nat (ThrownError "Error" "offline") eq_refl).
Defined.

Lemma bindAllScrobblers_from_empty_witness :
  snd (bindAllScrobblers Sample.heap Sample.registeredScrobblers
         Sample.noneBound)
  = Fulfilled [0; 2]%nat.
Proof.
  exact (ManagerMore.bindAllScrobblers_from_empty unit string Sample.heap
           Sample.registeredScrobblers Sample.noneBound eq_refl
           SampleFacts.sample_uniqueIds).
Defined.

Lemma spotify_unknown :
  forall id,
    Background.scrobblerId (SampleWorld.signInRequest "spotify") = Some id ->
    ~ In id (map (fun s => getId (Sample.heap s))
               Sample.registeredScrobblers).
Proof.
  intros id [= <-]. simpl. intuition discriminate.
Qed.

Lemma processMessage_unknown_scrobbler_witness :
  Background.processMessage Sample.heap SampleWorld.accounts
    Sample.registeredScrobblers SampleWorld.tabWorker
    SampleWorld.activeTab None Background.SignIn
    (Some (SampleWorld.signInRequest "spotify")) SampleWorld.fresh
  = (SampleWorld.fresh, Fulfilled Background.ReplyUndefined).
Proof.
  apply (BackgroundFacts.processMessage_unknown_scrobbler unit string unit
           Sample.heap SampleWorld.accounts Sample.registeredScrobblers SampleWorld.tabWorker SampleWorld.activeTab
           None Background.SignIn (SampleWorld.signInRequest "spotify")
           SampleWorld.fresh eq_refl).
  - discriminate.
  - exact spotify_unknown.
Defined.

Lemma processMessage_sign_in_witness :
  isScrobblerInArray Sample.heap 0%nat
    (boundScrobblers
       (Background.manager
          (fst (Background.processMessage Sample.heap SampleWorld.accounts
                  Sample.registeredScrobblers SampleWorld.tabWorker
                  SampleWorld.activeTab None Background.SignIn
                  (Some (SampleWorld.signInRequest "lastfm"))
                  SampleWorld.fresh))))
  = true.
Proof.
  exact (proj1 (proj2 (BackgroundFacts.processMessage_sign_in
                         unit string unit Sample.heap SampleWorld.accounts
                         Sample.registeredScrobblers SampleWorld.tabWorker
                         SampleWorld.activeTab None
                         (SampleWorld.signInRequest "lastfm") "lastfm"
                         0%nat SampleWorld.fresh
                         eq_refl eq_refl eq_refl))).
Defined.

Lemma processMessage_sign_out_witness :
  Background.manager
    (fst (Background.processMessage Sample.heap SampleWorld.accounts
            Sample.registeredScrobblers SampleWorld.tabWorker
            SampleWorld.activeTab None Background.SignOut
            (Some (SampleWorld.signInRequest "lastfm")) SampleWorld.fresh))
  = Background.manager SampleWorld.fresh.
Proof.
  exact (proj1 (BackgroundFacts.processMessage_sign_out
                  unit string unit Sample.heap SampleWorld.accounts
                  Sample.registeredScrobblers SampleWorld.tabWorker
                  SampleWorld.activeTab None
                  (SampleWorld.signInRequest "lastfm") "lastfm"
                  0%nat SampleWorld.fresh
                  eq_refl eq_refl eq_refl)).
Defined.

Lemma processMessage_apply_user_properties_witness :
  snd (Background.processMessage Sample.heap SampleWorld.accounts
         Sample.registeredScrobblers SampleWorld.tabWorker
         SampleWorld.activeTab None Background.ApplyUserProperties
         (Some (SampleWorld.signInRequest "librefm")) SampleWorld.fresh)
  = Rejected (ThrownError "Error" "network")
  /\ Background.manager
       (fst (Background.processMessage Sample.heap SampleWorld.accounts
               Sample.registeredScrobblers SampleWorld.tabWorker
               SampleWorld.activeTab None
               Background.ApplyUserProperties
               (Some (SampleWorld.signInRequest "librefm"))
               SampleWorld.fresh))
     = Background.manager SampleWorld.fresh.
Proof.
  exact (proj2 (BackgroundFacts.processMessage_apply_user_properties
                  unit string unit Sample.heap SampleWorld.accounts
                  Sample.registeredScrobblers SampleWorld.tabWorker
                  SampleWorld.activeTab None
                  (SampleWorld.signInRequest "librefm") "librefm"
                  1%nat SampleWorld.fresh
                  eq_refl eq_refl eq_refl)).
Defined.

Lemma start_with_a_session_witness :
  Background.appVersion
    (Background.core
       (fst (Background.start SampleWorld.allRevoked
               Sample.registeredScrobblers "2.35.0" true
               SampleWorld.fresh)))
  = Some "2.35.0"
  /\ Background.notifications
       (fst (Background.start Sample.heap Sample.registeredScrobblers
               "2.35.0" true SampleWorld.fresh))
     = Background.notifications SampleWorld.fresh.
Proof.
  split.
  - exact (proj1 (proj2
             (BackgroundFacts.start_with_a_session unit string
                SampleWorld.allRevoked Sample.registeredScrobblers
                "2.35.0" true SampleWorld.fresh))).
  - assert (Hin : In 0%nat Sample.registeredScrobblers) by (simpl; auto).
    exact (proj1 (proj2 (proj2
             (BackgroundFacts.start_with_a_session unit string Sample.heap
                Sample.registeredScrobblers "2.35.0" true
                SampleWorld.fresh))
             0%nat Hin eq_refl)).
Defined.

Lemma nobody_has_a_session :
  forall s, In s Sample.registeredScrobblers ->
    isFulfilled (getSession (SampleWorld.allRevoked s)) = false.
Proof.
  intros s [<- | [<- | [<- | []]]]; reflexivity.
Qed.

Lemma start_without_session_witness :
  Background.notifications
    (fst (Background.start SampleWorld.allRevoked
            Sample.registeredScrobblers "2.35.0" true SampleWorld.fresh))
  = Ext.showAuthNotification true
      (Background.notifications SampleWorld.fresh).
Proof.
  exact (proj2 (BackgroundFacts.start_without_session unit string
                  SampleWorld.allRevoked Sample.registeredScrobblers
                  "2.35.0" true SampleWorld.fresh eq_refl
                  nobody_has_a_session)).
Defined.

Lemma runs_without_session_witness :
  List.length
    (Ext.displayed
       (Background.notifications
          (Background.runs SampleWorld.allRevoked
             Sample.registeredScrobblers "2.35.0"
             [true; true; false; true; true] SampleWorld.fresh)))
  = 3%nat.
Proof.
  exact (proj2 (BackgroundFacts.runs_without_session unit string
                  SampleWorld.allRevoked Sample.registeredScrobblers
                  "2.35.0" [true; true; false; true; true]
                  SampleWorld.fresh nobody_has_a_session)
               eq_refl).
Defined.

Lemma manager_keeps_ids_distinct_witness :
  uniqueIds Sample.heap
    (boundScrobblers (fst (sendNowPlaying Sample.heap tt Sample.allBound))).
Proof.
  exact (proj1 (proj2 (ManagerMore.manager_keeps_ids_distinct unit string
                         Sample.heap Sample.registeredScrobblers tt Loved
                         Sample.allBound SampleFacts.sample_uniqueIds))).
Defined.


Lemma stringToSeconds_parsing_law_witness :
  Util.blank [" "%char; " "%char]
  /\ Util.blank [" "%char]
  /\ Util.numeral ["2"%char]
  /\ Util.numeral ["0"%char; "3"%char]
  /\ Util.numeral ["0"%char; "4"%char]
  /\ Util.stringToSeconds (Some "  -2:03:04 ") = -7384.
Proof.
  assert (Hh : Util.numeral ["2"%char])
    by (split; [discriminate | reflexivity]).
  assert (Hm : Util.numeral ["0"%char; "3"%char])
    by (split; [discriminate | reflexivity]).
  assert (Hs : Util.numeral ["0"%char; "4"%char])
    by (split; [discriminate | reflexivity]).
  repeat (split; [first [reflexivity | assumption] |]).
  exact (proj1 (proj2 (proj2 (proj2 UtilFacts.stringToSeconds_parsing_law)))
           [" "%char; " "%char] [" "%char] true
           ["2"%char] ["0"%char; "3"%char] ["0"%char; "4"%char]
           eq_refl eq_refl Hh Hm Hs).
Defined.

End MoreWitnesses.
